(** * Reminder scheduling engine of the Telegram assistant

    A shallow embedding of [bot/models.py], [bot/scheduler.py] and the
    reminder-related methods of [bot/telegram_bot.py], followed by the
    properties of the scheduling engine.

    Modelling conventions.
    - A [datetime] is an integer number of microseconds since the epoch
      (the resolution of Python's [datetime]); [timedelta(minutes=m)] is
      [m * 60_000_000].
    - The Django tables are finite maps keyed by primary key ([Task], keyed
      by the string form of its UUID, as it appears in job ids and callback
      data) or append-only lists ([Reminder], [BotLog], whose keys are
      auto-incremented).  A lookup with a string that is no stored key
      finds nothing.
    - The APScheduler job store is a finite map from job id to job;
      [add_job(..., replace_existing=True)] is map insertion and
      [remove_job] fails on an unknown id.
    - One call reads one clock value: every [timezone.now()] inside a call
      returns the world's [now]; time passes between calls.
    - Collaborator calls (database, Telegram transport, job store) succeed,
      except for the failures the source branches on: [Task.DoesNotExist],
      a primary-key collision, [JobLookupError] and arithmetic on a missing
      due time.  Chat replies to the user and the daily greeting are not
      part of the engine and are left out. *)

From Stdlib Require Import ZArith Lia Ascii String.
From stdpp Require Import base option list gmap strings pretty.

Local Open Scope Z_scope.
Local Open Scope string_scope.

(** ** Time *)

Definition timedelta (minutes : Z) : Z := minutes * 60000000.

(** ** bot/models.py *)

Inductive Status := pending | completed | cancelled | overdue.

#[global] Instance Status_eq_dec : EqDecision Status.
Proof. solve_decision. Defined.

Record Task := mkTask {
  title : string;
  description : string;
  due_time : option Z;
  priority : string;
  status : Status;
  created_at : Z;
  updated_at : Z;
  reminder_sent : bool;
  telegram_message_id : option Z
}.

Record Reminder := mkReminder {
  reminder_task : string;
  reminder_time : Z;
  message : string;
  is_sent : bool;
  reminder_created_at : Z
}.

Record BotLog := mkBotLog {
  log_type : string;
  log_task : string;
  log_detail : string
}.


(** ** The APScheduler job store *)

Inductive Trigger :=
| DateTrigger (run_date : Z)
| IntervalTrigger (interval : Z) (start_date : Z).

Inductive JobFunc :=
| send_reminder_job (task_id reminder_type : string)
| send_recurring_reminder_job (task_id : string)
| check_overdue_tasks_job.

Record Job := mkJob {
  func : JobFunc;
  trigger : Trigger
}.

#[global] Instance Trigger_eq_dec : EqDecision Trigger.
Proof. solve_decision. Defined.
#[global] Instance JobFunc_eq_dec : EqDecision JobFunc.
Proof. solve_decision. Defined.
#[global] Instance Job_eq_dec : EqDecision Job.
Proof. solve_decision. Defined.

(** ** Messages handed to the notification channel *)

Inductive Heading :=
| UrgentReminder | HighPriorityReminder | PlainReminder
| UrgentStillPending | HighStillPending.

Inductive Emoji := green | yellow | orange | red.

Inductive DueLine :=
| DueIn (minutes_left : Z)
| OverdueBy (minutes_over : Z)
| DueNow.

Record Notification := mkNotification {
  n_task : string;
  n_heading : Heading;
  n_emoji : Emoji;
  n_title : string;
  n_description : string;
  n_due : DueLine;
  n_keyboard : list string
}.

(** ** The world: repository tables, job store, channel and clock *)

Record World := mkWorld {
  tasks : gmap string Task;
  reminders : list Reminder;
  jobs : gmap string Job;
  outbox : list Notification;
  botlog : list BotLog;
  now : Z
}.

Definition with_tasks (ts : gmap string Task) (w : World) : World :=
  mkWorld ts (reminders w) (jobs w) (outbox w) (botlog w) (now w).
Definition with_reminders (rs : list Reminder) (w : World) : World :=
  mkWorld (tasks w) rs (jobs w) (outbox w) (botlog w) (now w).
Definition with_jobs (js : gmap string Job) (w : World) : World :=
  mkWorld (tasks w) (reminders w) js (outbox w) (botlog w) (now w).
Definition with_outbox (ob : list Notification) (w : World) : World :=
  mkWorld (tasks w) (reminders w) (jobs w) ob (botlog w) (now w).
Definition with_botlog (bl : list BotLog) (w : World) : World :=
  mkWorld (tasks w) (reminders w) (jobs w) (outbox w) bl (now w).
Definition with_now (t : Z) (w : World) : World :=
  mkWorld (tasks w) (reminders w) (jobs w) (outbox w) (botlog w) t.

(** [scheduler.add_job(..., id=job_id, replace_existing=True)] *)
Definition add_job (job_id : string) (j : Job) (w : World) : World :=
  with_jobs (<[job_id := j]> (jobs w)) w.

(** [scheduler.remove_job(job_id)]: raises [JobLookupError] ([None]) when no
    job has that id. *)
Definition remove_job (job_id : string) (w : World) : option World :=
  match jobs w !! job_id with
  | Some _ => Some (with_jobs (delete job_id (jobs w)) w)
  | None => None
  end.

(** [Reminder.objects.create(...)] *)
Definition create_reminder (r : Reminder) (w : World) : World :=
  with_reminders (reminders w ++ [r]) w.

(** [BotLog.objects.create(...)] *)
Definition create_botlog (l : BotLog) (w : World) : World :=
  with_botlog (botlog w ++ [l]) w.

(** [auto_now=True] on [updated_at]. *)
Definition touch (stamp : Z) (t : Task) : Task :=
  mkTask (title t) (description t) (due_time t) (priority t) (status t)
    (created_at t) stamp (reminder_sent t) (telegram_message_id t).

(** [task.save()]: writes the row back, stamping [updated_at]. *)
Definition save (task_id : string) (t : Task) (w : World) : World :=
  with_tasks (<[task_id := touch (now w) t]> (tasks w)) w.

Definition set_status (s : Status) (t : Task) : Task :=
  mkTask (title t) (description t) (due_time t) (priority t) s
    (created_at t) (updated_at t) (reminder_sent t) (telegram_message_id t).

(** [Task.mark_completed] *)
Definition mark_completed (task_id : string) (t : Task) (w : World) : World :=
  save task_id (set_status completed t) w.

(** ** bot/scheduler.py *)

Definition reminder_job_id (task_id reminder_type : string) : string :=
  "reminder_" +:+ task_id +:+ "_" +:+ reminder_type.

Definition recurring_job_id (task_id : string) : string :=
  "recurring_" +:+ task_id.

Definition schedule_single_reminder (task_id : string) (task : Task)
    (reminder_time : Z) (reminder_type : string) (w : World) : World :=
  let w1 :=
    create_reminder
      (mkReminder task_id reminder_time ("Reminder for: " +:+ title task)
         false (now w)) w in
  let job_id := reminder_job_id task_id reminder_type in
  add_job job_id
    (mkJob (send_reminder_job task_id reminder_type)
       (DateTrigger reminder_time)) w1.

Definition schedule_recurring_reminder (task_id : string) (task : Task)
    (w : World) : World :=
  match due_time task with
  | None => w   (* TypeError, caught and logged *)
  | Some due =>
    let start_time := due + timedelta 5 in
    if bool_decide (now w < start_time) then
      add_job (recurring_job_id task_id)
        (mkJob (send_recurring_reminder_job task_id)
           (IntervalTrigger (timedelta 5) start_time)) w
    else w
  end.

(** The f-string [f"urgent_{minutes}min"] for the three literal offsets of
    the source; [pretty] prints the decimal numeral. *)
Definition urgent_type (minutes : Z) : string :=
  "urgent_" +:+ pretty minutes +:+ "min".

Definition schedule_reminder (task_id : string) (task : Task) (w : World)
    : World :=
  match due_time task with
  | None => w
  | Some due =>
    if decide (priority task = "urgent") then
      let reminder_times := [30; 15; 5] in
      let w1 :=
        foldl (fun w minutes =>
                 let reminder_time := due - timedelta minutes in
                 if bool_decide (now w < reminder_time) then
                   schedule_single_reminder task_id task reminder_time
                     (urgent_type minutes) w
                 else w)
              w reminder_times in
      schedule_recurring_reminder task_id task w1
    else if decide (priority task = "high") then
      let reminder_time := due - timedelta 15 in
      let w1 :=
        if bool_decide (now w < reminder_time) then
          schedule_single_reminder task_id task reminder_time "high_15min" w
        else w in
      schedule_recurring_reminder task_id task w1
    else
      let reminder_time := due - timedelta 15 in
      if bool_decide (now w < reminder_time) then
        schedule_single_reminder task_id task reminder_time "standard_15min" w
      else w
  end.

Definition stop_recurring_reminders (task_id : string) (w : World) : World :=
  match remove_job (recurring_job_id task_id) w with
  | Some w' => w'
  | None => w   (* JobLookupError, caught and logged *)
  end.

(** [check_overdue_tasks]: the queryset
    [Task.objects.filter(due_time__lt=now, status='pending')] is evaluated
    once by the loop, which then saves each row with the new status.  A row
    without due time never satisfies [due_time__lt]. *)
Definition is_overdue_row (t : Z) (row : string * Task) : bool :=
  match due_time row.2 with
  | Some due => bool_decide (due < t) && bool_decide (status row.2 = pending)
  | None => false
  end.

Definition check_overdue_tasks (w : World) : World :=
  let overdue_tasks := filter (fun row => is_overdue_row (now w) row)
                         (map_to_list (tasks w)) in
  foldl (fun w row => save row.1 (set_status overdue row.2) w)
    w overdue_tasks.

(** ** bot/telegram_bot.py *)

Definition get_priority_emoji (p : string) : Emoji :=
  if decide (p = "low") then green
  else if decide (p = "medium") then yellow
  else if decide (p = "high") then orange
  else if decide (p = "urgent") then red
  else yellow.

(** Python's [needle in hay] on strings. *)
Fixpoint contains (needle hay : string) : bool :=
  String.prefix needle hay ||
  match hay with
  | EmptyString => false
  | String _ hay' => contains needle hay'
  end.

(** [int(delta.total_seconds() / 60)]: truncation towards zero (the
    rounding of the intermediate float is not modelled). *)
Definition whole_minutes (delta : Z) : Z := Z.quot delta 60000000.

(** [TelegramBot.send_reminder(task_id, reminder_type=reminder_type)], the
    call made by [send_reminder_job] (no custom message). *)
Definition send_reminder (task_id reminder_type : string) (w : World)
    : World :=
  match tasks w !! task_id with
  | None => w   (* Task.DoesNotExist, logged *)
  | Some task =>
    if decide (status task = completed) then w
    else
      match due_time task with
      | None => w   (* TypeError on the subtraction, caught and logged *)
      | Some due =>
        let minutes_left := whole_minutes (due - now w) in
        let priority_emoji := get_priority_emoji (priority task) in
        let heading :=
          if contains "urgent" reminder_type then UrgentReminder
          else if contains "high" reminder_type then HighPriorityReminder
          else PlainReminder in
        let due_line :=
          if bool_decide (0 < minutes_left) then DueIn minutes_left
          else if bool_decide (minutes_left < 0)
               then OverdueBy (Z.abs minutes_left)
               else DueNow in
        let keyboard :=
          (["complete_" +:+ task_id] ++
           (if bool_decide (priority task ∈ ["high"; "urgent"])
            then ["stop_reminders_" +:+ task_id] else []))%list in
        let w1 :=
          with_outbox
            (outbox w ++
             [mkNotification task_id heading priority_emoji (title task)
                (description task) due_line keyboard])%list w in
        create_botlog (mkBotLog "reminder_sent" task_id reminder_type) w1
      end
  end.

(** [TelegramBot.send_recurring_reminder(task_id)] *)
Definition send_recurring_reminder (task_id : string) (w : World) : World :=
  match tasks w !! task_id with
  | None => stop_recurring_reminders task_id w   (* Task.DoesNotExist *)
  | Some task =>
    if decide (status task = completed) then
      stop_recurring_reminders task_id w
    else
      match due_time task with
      | None => w   (* TypeError on the subtraction, caught and logged *)
      | Some due =>
        let minutes_overdue := whole_minutes (now w - due) in
        let priority_emoji := get_priority_emoji (priority task) in
        let heading :=
          if decide (priority task = "urgent") then UrgentStillPending
          else HighStillPending in
        let keyboard :=
          ["complete_" +:+ task_id; "stop_reminders_" +:+ task_id] in
        with_outbox
          (outbox w ++
           [mkNotification task_id heading priority_emoji (title task)
              (description task) (OverdueBy minutes_overdue) keyboard])%list
          w
      end
  end.

(** [s.split("_", 1)[1]]: the text after the first underscore. *)
Fixpoint after_underscore (s : string) : string :=
  match s with
  | EmptyString => EmptyString
  | String c s' =>
      if Ascii.eqb c ("_" : Ascii.ascii) then s' else after_underscore s'
  end.

(** [TelegramBot.handle_callback], on the callback data of the pressed
    button.  The remaining branches only answer in the chat. *)
Definition handle_callback (data : string) (w : World) : World :=
  if String.prefix "complete_" data then
    let task_id := after_underscore data in
    match tasks w !! task_id with
    | None => w   (* Task.DoesNotExist: "Task not found." *)
    | Some task =>
      let w1 := mark_completed task_id task w in
      let w2 :=
        if bool_decide (priority task ∈ ["high"; "urgent"])
        then stop_recurring_reminders task_id w1
        else w1 in
      create_botlog (mkBotLog "task_completed" task_id (title task)) w2
    end
  else if String.prefix "stop_reminders_" data then
    let task_id := after_underscore (after_underscore data) in
    let w1 := stop_recurring_reminders task_id w in
    match tasks w1 !! task_id with
    | None => w1   (* Task.DoesNotExist: "Task not found." *)
    | Some task => create_botlog (mkBotLog "info" task_id (title task)) w1
    end
  else w.

(** [TelegramBot.create_task_from_parsed_data]: [uuid] is the fresh primary
    key drawn by [uuid.uuid4]; a key already present makes the insertion
    fail, which the handler catches before anything is scheduled. *)
Definition create_task (uuid title description : string) (due : option Z)
    (prio : string) (msg_id : option Z) (w : World) : World :=
  match tasks w !! uuid with
  | Some _ => w
  | None =>
    let task := mkTask title description due prio pending (now w) (now w)
                  false msg_id in
    let w1 := with_tasks (<[uuid := task]> (tasks w)) w in
    let w2 :=
      match due_time task with
      | Some _ => schedule_reminder uuid task w1
      | None => w1
      end in
    create_botlog (mkBotLog "task_created" uuid title) w2
  end.

(** ** The timer facility

    APScheduler runs the function of an installed job; a job with a date
    trigger has no further run time and leaves the store when it fires, a
    job with an interval trigger stays.  When a job fires is left to the
    facility: the properties below hold for every firing order. *)

Definition run_job_func (f : JobFunc) (w : World) : World :=
  match f with
  | send_reminder_job task_id reminder_type =>
      send_reminder task_id reminder_type w
  | send_recurring_reminder_job task_id => send_recurring_reminder task_id w
  | check_overdue_tasks_job => check_overdue_tasks w
  end.

Definition fire (job_id : string) (w : World) : World :=
  match jobs w !! job_id with
  | None => w
  | Some j =>
    let w1 :=
      match trigger j with
      | DateTrigger _ => with_jobs (delete job_id (jobs w)) w
      | IntervalTrigger _ _ => w
      end in
    run_job_func (func j) w1
  end.

(** What can happen to the engine, and runs of such events: a task is
    created from a chat message, a button is pressed, the timer facility
    fires a job, time passes.  Edits made on the admin site are not events
    of the engine. *)
Inductive Event :=
| TaskCreated (uuid title description : string) (due : option Z)
    (prio : string) (msg_id : option Z)
| CallbackQuery (data : string)
| TimerFired (job_id : string)
| ClockAdvanced (dt : N).

Definition step (w : World) (e : Event) : World :=
  match e with
  | TaskCreated uuid title description due prio msg_id =>
      create_task uuid title description due prio msg_id w
  | CallbackQuery data => handle_callback data w
  | TimerFired job_id => fire job_id w
  | ClockAdvanced dt => with_now (now w + Z.of_N dt) w
  end.

Definition run (es : list Event) (w : World) : World := foldl step w es.

(** The module-level state of [scheduler.py] at import time [t]: an empty
    repository and the hourly overdue sweep. *)
Definition initial_world (t : Z) : World :=
  mkWorld ∅ []
    {[ "check_overdue" :=
         mkJob check_overdue_tasks_job
           (IntervalTrigger (timedelta 60) (t + timedelta 60)) ]}
    [] [] t.

(** ** The reminder policy of the specification

    The table of the specification, over its four priorities; the job kinds
    carry the tags the source uses in its job ids. *)



Inductive JobSpec :=
| OneShot (kind : string) (fire_time : Z)
| Recurring (start_time : Z) (every : Z).


Definition spec_time (js : JobSpec) : Z :=
  match js with
  | OneShot _ fire_time => fire_time
  | Recurring start_time _ => start_time
  end.

Definition spec_id (task_id : string) (js : JobSpec) : string :=
  match js with
  | OneShot kind _ => reminder_job_id task_id kind
  | Recurring _ _ => recurring_job_id task_id
  end.

Definition spec_job (task_id : string) (js : JobSpec) : Job :=
  match js with
  | OneShot kind fire_time =>
      mkJob (send_reminder_job task_id kind) (DateTrigger fire_time)
  | Recurring start_time every =>
      mkJob (send_recurring_reminder_job task_id)
        (IntervalTrigger every start_time)
  end.

Definition install (task_id : string) (store : gmap string Job)
    (js : JobSpec) : gmap string Job :=
  <[spec_id task_id js := spec_job task_id js]> store.

Definition is_one_shot (js : JobSpec) : bool :=
  match js with OneShot _ _ => true | Recurring _ _ => false end.

(** The audit record written for a one-shot job of the table. *)
Definition spec_record (task_id : string) (task : Task) (t : Z)
    (js : JobSpec) : Reminder :=
  mkReminder task_id (spec_time js) ("Reminder for: " +:+ title task)
    false t.

(** ** Notions used in the statements *)

Definition install_if_future (task_id : string) (t : Z)
    (store : gmap string Job) (js : JobSpec) : gmap string Job :=
  if bool_decide (t < spec_time js) then install task_id store js else store.

(** The three branches of [schedule_reminder] as a plan, for any priority
    string the repository may hold. *)
Definition reminder_plan (prio : string) (due : Z) : list JobSpec :=
  if decide (prio = "urgent") then
    [OneShot "urgent_30min" (due - timedelta 30);
     OneShot "urgent_15min" (due - timedelta 15);
     OneShot "urgent_5min" (due - timedelta 5);
     Recurring (due + timedelta 5) (timedelta 5)]
  else if decide (prio = "high") then
    [OneShot "high_15min" (due - timedelta 15);
     Recurring (due + timedelta 5) (timedelta 5)]
  else
    [OneShot "standard_15min" (due - timedelta 15)].

Definition live_one_shots (t : Z) (table : list JobSpec) : list JobSpec :=
  List.filter (fun js => is_one_shot js && bool_decide (t < spec_time js))
    table.

(** One guarded call of [schedule_single_reminder], as in each branch. *)
Definition single_if_future (task_id : string) (t : Task) (rt : Z)
    (ty : string) (w : World) : World :=
  if bool_decide (now w < rt)
  then schedule_single_reminder task_id t rt ty w else w.

Definition sweep_row (w : World) (row : string * Task) : World :=
  save row.1 (set_status overdue row.2) w.

(** The status moves the code can make on a stored task. *)
Inductive status_move : Status → Status → Prop :=
| move_stay s : status_move s s
| move_complete s : status_move s completed
| move_overdue : status_move pending overdue.

(** What a call may add to the channel: nothing, or one notification about
    a stored task that is not completed. *)
Definition sends_at_most_one (w w' : World) : Prop :=
  outbox w' = outbox w
  ∨ ∃ n t, outbox w' = (outbox w ++ [n])%list
           ∧ tasks w !! n_task n = Some t ∧ status t ≠ completed.

(** How the task table and the job store may differ across a call. *)
Definition tasks_evolve (w w' : World) : Prop :=
  (∀ k t, tasks w !! k = Some t →
          ∃ t', tasks w' !! k = Some t' ∧ status_move (status t) (status t'))
  ∧ (∀ k t', tasks w !! k = None → tasks w' !! k = Some t' →
             status t' = pending).

Definition jobs_shrink (w w' : World) : Prop :=
  ∀ k j, jobs w' !! k = Some j → jobs w !! k = Some j.

(** Jobs a creation may add: those of the new task's plan. *)
Definition jobs_grow_for (uuid : string) (w w' : World) : Prop :=
  ∀ k j, jobs w' !! k = Some j →
         jobs w !! k = Some j
         ∨ ∃ js, k = spec_id uuid js ∧ j = spec_job uuid js.

(** How often the timer facility runs the job stored under [job_id] during
    a run: a [TimerFired] event for an id that is not installed runs
    nothing. *)
Fixpoint firings (job_id : string) (es : list Event) (w : World) : nat :=
  match es with
  | [] => 0
  | e :: es' =>
      (match e with
       | TimerFired i =>
           if decide (i = job_id)
           then match jobs w !! job_id with Some _ => 1 | None => 0 end
           else 0
       | _ => 0
       end + firings job_id es' (step w e))%nat
  end.

(** The notifications about one task that reached the channel. *)
Definition notified (task_id : string) (w : World) : list Notification :=
  filter (fun n => n_task n = task_id) (outbox w).

(** Primary keys as [str(uuid.uuid4())] prints them. *)
Definition task1 : string := "7c9e6679-7425-40de-944b-e07fc1f90ae7".
Definition task2 : string := "0b4e1a52-93c8-4f6d-8a27-5d3c9e7f1b64".
Definition task3 : string := "e3a1f0c8-2d5b-4b7e-b6a9-184c0d2f7e35".
Definition task4 : string := "59d2c7ab-6e10-4c83-9f4d-a7b8e6c5d021".

Definition urgent_task : Task :=
  mkTask "file the report" "" (Some 6000000000) "urgent" pending 0 0 false
    None.


(** An urgent task created an hour and forty minutes before it is due. *)
Definition scheduled_world : World :=
  step (initial_world 0)
    (TaskCreated task1 "file the report" "" (Some 6000000000) "urgent" None).

(** The same task once its row says completed although the callback never
    ran (the status column is editable on the admin site): the recurring
    job is still installed. *)
Definition completed_world : World :=
  with_tasks
    {[ task1 := mkTask "file the report" "" (Some 6000000000) "urgent"
                 completed 0 0 false None ]}
    scheduled_world.

(** The same task with its row set to cancelled. *)
Definition cancelled_world : World :=
  with_tasks
    {[ task1 := mkTask "file the report" "" (Some 6000000000) "urgent"
                 cancelled 0 0 false None ]}
    scheduled_world.

(** An urgent task due at minute 118: its three one-shot reminders fire,
    the hourly sweep of minute 120 marks it overdue, and the clock reaches
    the first recurring tick at minute 123. *)
Definition overdue_run : list Event :=
  [TaskCreated task1 "file the report" "" (Some 7080000000) "urgent" None;
   ClockAdvanced 3600000000; TimerFired "check_overdue";
   ClockAdvanced 1680000000;
   TimerFired (reminder_job_id task1 "urgent_30min");
   ClockAdvanced 900000000;
   TimerFired (reminder_job_id task1 "urgent_15min");
   ClockAdvanced 600000000;
   TimerFired (reminder_job_id task1 "urgent_5min");
   ClockAdvanced 420000000; TimerFired "check_overdue";
   ClockAdvanced 180000000].

Definition overdue_world : World := run overdue_run (initial_world 0).

Definition sweep_world : World :=
  mkWorld
    {[ task1 := mkTask "late" "" (Some 100) "medium" pending 0 0 false None;
       task2 := mkTask "done" "" (Some 100) "medium" completed 0 0 false None;
       task3 := mkTask "later" "" (Some 900) "medium" pending 0 0 false None;
       task4 := mkTask "someday" "" None "low" pending 0 0 false None ]}
    [] ∅ [] [] 500.

(** A completed task whose recurring job id, if taken, holds its recurring
    job. *)
Definition completed_inv (task_id : string) (w : World) : Prop :=
  (∃ t, tasks w !! task_id = Some t ∧ status t = completed)
  ∧ (∀ j, jobs w !! recurring_job_id task_id = Some j →
          func j = send_recurring_reminder_job task_id).

(** ** Further code of the repository *)

(** [Task.is_overdue] ([bot/models.py]), by truthiness: a missing due time
    makes the [and] chain falsy. *)
Definition is_overdue (t : Z) (task : Task) : bool :=
  match due_time task with
  | Some due => bool_decide (due < t) && bool_decide (status task = pending)
  | None => false
  end.

(** The [if]/[elif] chain of [TelegramBot.handle_callback]: which branch
    handles a callback. *)
Inductive CallbackBranch :=
| BranchComplete (task_id : string)
| BranchStopReminders (task_id : string)
| BranchAddTask
| BranchCompleteTask
| BranchNone.

Definition callback_branch (data : string) : CallbackBranch :=
  if String.prefix "complete_" data then
    BranchComplete (after_underscore data)
  else if String.prefix "stop_reminders_" data then
    BranchStopReminders (after_underscore (after_underscore data))
  else if decide (data = "add_task") then BranchAddTask
  else if decide (data = "complete_task") then BranchCompleteTask
  else BranchNone.

(** Strings without an underscore, as the printed form of a UUID is. *)
Fixpoint no_underscore (s : string) : bool :=
  match s with
  | EmptyString => true
  | String c s' =>
      negb (Ascii.eqb c ("_" : Ascii.ascii)) && no_underscore s'
  end.

(** A button whose callback either completes the task or stops its
    recurring reminders. *)
Definition button_acts_on (task_id b : string) : Prop :=
  ∀ w t, tasks w !! task_id = Some t →
    tasks (handle_callback b w) !! task_id
    = Some (touch (now w) (set_status completed t))
    ∨ (jobs (handle_callback b w)
       = delete (recurring_job_id task_id) (jobs w)
       ∧ tasks (handle_callback b w) = tasks w).

(** The columns of a task other than its status and its update stamp. *)
Definition same_task_data (t t' : Task) : Prop :=
  title t' = title t ∧ description t' = description t
  ∧ due_time t' = due_time t ∧ priority t' = priority t
  ∧ created_at t' = created_at t ∧ reminder_sent t' = reminder_sent t
  ∧ telegram_message_id t' = telegram_message_id t.

(** A job of the store is the hourly sweep, or a job of the plan of a
    stored task, installed under that job's id. *)
Definition job_wf (ts : gmap string Task) (k : string) (j : Job) : Prop :=
  (k = "check_overdue" ∧ func j = check_overdue_tasks_job)
  ∨ ∃ task_id t d js,
      ts !! task_id = Some t ∧ due_time t = Some d
      ∧ js ∈ reminder_plan (priority t) d
      ∧ k = spec_id task_id js ∧ j = spec_job task_id js.

Definition engine_inv (w : World) : Prop :=
  ∀ k j, jobs w !! k = Some j → job_wf (tasks w) k j.

(** The timer events of a run. *)
Definition is_timer_event (e : Event) : bool :=
  match e with TimerFired _ => true | _ => false end.

Definition timer_events (es : list Event) : nat :=
  length (List.filter is_timer_event es).

(** How often a run executes a job with function [f]. *)
Fixpoint runs_of (f : JobFunc) (es : list Event) (w : World) : nat :=
  match es with
  | [] => 0
  | e :: es' =>
      (match e with
       | TimerFired i =>
           match jobs w !! i with
           | Some j => if decide (func j = f) then 1 else 0
           | None => 0
           end
       | _ => 0
       end + runs_of f es' (step w e))%nat
  end.

(** ** Conversation memory ([bot/telegram_bot.py], [bot/openai_service.py])

    A [Conversation] row is keyed by its session id and is modelled by the
    list stored under ["messages"] in its context (a context without that
    entry reads as the empty list, as in the source). *)

Record ChatMessage := mkChatMessage {
  role : string;
  content : string
}.

(** The slice [l[-n:]] for a positive [n]. *)
Definition last_n {A} (n : nat) (l : list A) : list A :=
  drop (length l - n) l.

(** [TelegramBot.get_conversation_context]: get or create. *)
Definition get_conversation_context (user_id : string)
    (cs : gmap string (list ChatMessage))
    : list ChatMessage * gmap string (list ChatMessage) :=
  match cs !! user_id with
  | Some messages => (messages, cs)
  | None => ([], <[user_id := []]> cs)
  end.

(** [TelegramBot.update_conversation_context]: a missing row raises
    [Conversation.DoesNotExist], which is caught and logged. *)
Definition update_conversation_context
    (user_id user_message bot_response : string)
    (cs : gmap string (list ChatMessage)) : gmap string (list ChatMessage) :=
  match cs !! user_id with
  | None => cs
  | Some messages =>
    let messages :=
      (messages ++ [mkChatMessage "user" user_message;
                    mkChatMessage "assistant" bot_response])%list in
    let messages :=
      if bool_decide (20 < length messages)%nat
      then last_n 20 messages else messages in
    <[user_id := messages]> cs
  end.

(** The message list [OpenAIService.get_assistant_response] sends: the
    system prompt, the last ten stored messages, the user's message. *)
Definition build_messages (system_prompt : string)
    (context : list ChatMessage) (message : string) : list ChatMessage :=
  ([mkChatMessage "system" system_prompt] ++ last_n 10 context ++
   [mkChatMessage "user" message])%list.

(** The conversational branch of [TelegramBot.handle_message]; [complete]
    stands for the chat completion (with its fallback text on failure). *)
Definition converse (complete : list ChatMessage → string)
    (system_prompt user_id user_message : string)
    (cs : gmap string (list ChatMessage))
    : string * gmap string (list ChatMessage) :=
  let '(context, cs1) := get_conversation_context user_id cs in
  let response :=
    complete (build_messages system_prompt context user_message) in
  (response, update_conversation_context user_id user_message response cs1).

(** A history of whole exchanges: user and assistant messages in turn. *)
Fixpoint alternating (l : list ChatMessage) : bool :=
  match l with
  | [] => true
  | u :: l1 =>
      match l1 with
      | [] => false
      | a :: l2 =>
          bool_decide (role u = "user")
          && bool_decide (role a = "assistant") && alternating l2
      end
  end.

(** ** Task creation from parsed data ([bot/telegram_bot.py])

    The dictionary returned by the parser, field by field: a key may be
    absent, hold [null], or hold a string as the parser's prompt asks.
    Strings are taken to fit their columns. *)

Inductive JsonField :=
| JAbsent
| JNull
| JString (s : string).

Record TaskData := mkTaskData {
  td_title : JsonField;
  td_description : JsonField;
  td_due_time : JsonField;
  td_priority : JsonField
}.

(** [s.replace('Z', '+00:00')] *)
Fixpoint replace_Z (s : string) : string :=
  match s with
  | EmptyString => EmptyString
  | String c s' =>
      if Ascii.eqb c ("Z" : Ascii.ascii) then "+00:00" +:+ replace_Z s'
      else String c (replace_Z s')
  end.

(** The due time of the new task: [fromisoformat] stands for
    [datetime.fromisoformat] followed by [make_aware], [None] when it
    raises.  A missing, null or empty field is not parsed at all. *)
Definition parse_due_time (fromisoformat : string → option Z)
    (f : JsonField) : option Z :=
  match f with
  | JString s =>
      if decide (s = "") then None else fromisoformat (replace_Z s)
  | _ => None
  end.

(** [task_data.get(key, default)] for a column that does not accept
    [null]: a [null] makes the insertion fail. *)
Definition get_or (default : string) (f : JsonField) : option string :=
  match f with
  | JAbsent => Some default
  | JNull => None
  | JString s => Some s
  end.

(** [TelegramBot.create_task_from_parsed_data]: a missing title raises
    [KeyError], a [null] in a column the insertion rejects; both are caught
    by the handler, which then only answers in the chat. *)
Definition create_task_from_parsed_data
    (fromisoformat : string → option Z) (uuid : string)
    (task_data : TaskData) (message_id : Z) (w : World) : World :=
  let due_time := parse_due_time fromisoformat (td_due_time task_data) in
  match td_title task_data with
  | JString title =>
      match get_or "" (td_description task_data),
            get_or "medium" (td_priority task_data) with
      | Some description, Some priority =>
          create_task uuid title description due_time priority
            (Some message_id) w
      | _, _ => w
      end
  | _ => w
  end.

(** ** The completion list ([TelegramBot.complete_task_command])

    The queryset [Task.objects.filter(status='pending')
    .order_by('due_time')[:10]]; how the database orders rows, rows without
    due time among them, is left to [order_by_due_time]. *)
Definition pending_tasks
    (order_by_due_time : list (string * Task) → list (string * Task))
    (w : World) : list (string * Task) :=
  take 10
    (order_by_due_time
       (filter (fun row => status row.2 = pending) (map_to_list (tasks w)))).

(** The callback data of the buttons of the list, one per task. *)
Definition complete_task_keyboard
    (order_by_due_time : list (string * Task) → list (string * Task))
    (w : World) : list string :=
  (fun row => "complete_" +:+ row.1) <$> pending_tasks order_by_due_time w.

(** ** User profiles ([TelegramBot.get_user_profile],
    [TelegramBot.update_user_profile])

    The table is keyed by [user_id], which is unique.  The record keeps the
    two columns the update writes; [preferences] and the time stamps are
    not read by the code modelled here. *)

Record UserProfile := mkUserProfile {
  profile_name : string;
  profile_occupation : string
}.

Definition get_user_profile (user_id : string)
    (ps : gmap string UserProfile) : UserProfile * gmap string UserProfile :=
  match ps !! user_id with
  | Some profile => (profile, ps)
  | None => (mkUserProfile "" "", <[user_id := mkUserProfile "" ""]> ps)
  end.

(** An argument that is [None] or empty is falsy and leaves the column as
    it is. *)
Definition truthy (o : option string) : option string :=
  match o with
  | Some s => if decide (s = "") then None else Some s
  | None => None
  end.

Definition update_user_profile (user_id : string)
    (name occupation : option string) (ps : gmap string UserProfile)
    : gmap string UserProfile :=
  let '(profile, ps1) := get_user_profile user_id ps in
  let profile1 :=
    match truthy name with
    | Some n => mkUserProfile n (profile_occupation profile)
    | None => profile
    end in
  let profile2 :=
    match truthy occupation with
    | Some o => mkUserProfile (profile_name profile1) o
    | None => profile1
    end in
  <[user_id := profile2]> ps1.

(** * Properties *)

(** ** Job identities *)

Lemma append_cons c s t : String c s +:+ t = String c (s +:+ t).
Proof. reflexivity. Qed.

Lemma append_nil t : "" +:+ t = t.
Proof. reflexivity. Qed.

Lemma prefix_nil s : String.prefix "" s = true.
Proof. by destruct s. Qed.

Ltac string_norm :=
  rewrite ?append_cons, ?append_nil in *.

Lemma reminder_job_id_inj task_id a b :
  reminder_job_id task_id a = reminder_job_id task_id b → a = b.
Proof.
  unfold reminder_job_id. intros H.
  do 3 apply String.app_inj in H. exact H.
Qed.

Lemma reminder_recurring_disjoint task_id kind task_id' :
  reminder_job_id task_id kind ≠ recurring_job_id task_id'.
Proof. unfold reminder_job_id, recurring_job_id. string_norm. congruence. Qed.

Lemma recurring_job_id_inj a b :
  recurring_job_id a = recurring_job_id b → a = b.
Proof. unfold recurring_job_id. apply String.app_inj. Qed.

Lemma urgent_types :
  urgent_type 30 = "urgent_30min" ∧ urgent_type 15 = "urgent_15min"
  ∧ urgent_type 5 = "urgent_5min".
Proof. repeat split; vm_compute; reflexivity. Qed.

(** ** What scheduling touches *)

Lemma schedule_recurring_frame task_id t w :
  let w' := schedule_recurring_reminder task_id t w in
  tasks w' = tasks w ∧ reminders w' = reminders w ∧ outbox w' = outbox w
  ∧ botlog w' = botlog w ∧ now w' = now w.
Proof.
  unfold schedule_recurring_reminder. destruct (due_time t); [|done].
  by destruct (bool_decide _).
Qed.

Lemma schedule_reminder_frame task_id t w :
  let w' := schedule_reminder task_id t w in
  tasks w' = tasks w ∧ outbox w' = outbox w ∧ botlog w' = botlog w
  ∧ now w' = now w.
Proof.
  assert (∀ rt ty w0,
            let w' := if bool_decide (now w0 < rt)
                      then schedule_single_reminder task_id t rt ty w0
                      else w0 in
            tasks w' = tasks w0 ∧ outbox w' = outbox w0
            ∧ botlog w' = botlog w0 ∧ now w' = now w0) as Hone.
  { intros rt ty w0. by destruct (bool_decide _). }
  unfold schedule_reminder. destruct (due_time t) as [d|] eqn:Hd; [|done].
  destruct (decide (priority t = "urgent"));
    [|destruct (decide (priority t = "high"))];
    cbn [foldl];
    repeat match goal with
      | |- context [schedule_recurring_reminder ?i ?t ?w0] =>
          destruct (schedule_recurring_frame i t w0)
            as (-> & _ & -> & -> & ->)
      | |- context [if bool_decide (now ?w0 < ?rt)
                    then schedule_single_reminder ?i ?t ?rt ?ty ?w0
                    else ?w0] =>
          destruct (Hone rt ty w0) as (-> & -> & -> & ->)
      end; done.
Qed.

(** ** The code against the policy table *)

#[local] Arguments urgent_type : simpl never.

Lemma schedule_recurring_step task_id t d w :
  due_time t = Some d →
  jobs (schedule_recurring_reminder task_id t w)
  = install_if_future task_id (now w) (jobs w)
      (Recurring (d + timedelta 5) (timedelta 5))
  ∧ reminders (schedule_recurring_reminder task_id t w) = reminders w.
Proof.
  intros Hd. unfold schedule_recurring_reminder, install_if_future.
  rewrite Hd. cbn [spec_time]. by destruct (bool_decide _).
Qed.

Lemma single_if_future_step task_id t rt ty w :
  let w' := single_if_future task_id t rt ty w in
  jobs w' = install_if_future task_id (now w) (jobs w) (OneShot ty rt)
  ∧ reminders w'
    = (reminders w ++
       (spec_record task_id t (now w) <$>
          live_one_shots (now w) [OneShot ty rt]))%list
  ∧ now w' = now w.
Proof.
  unfold single_if_future, install_if_future, live_one_shots.
  cbn [List.filter is_one_shot spec_time andb].
  destruct (bool_decide _); cbn [fmap list_fmap]; [done|].
  by rewrite app_nil_r.
Qed.

Lemma live_one_shots_cons t js l :
  live_one_shots t (js :: l)
  = (live_one_shots t [js] ++ live_one_shots t l)%list.
Proof.
  unfold live_one_shots. cbn [List.filter].
  by destruct (is_one_shot js && bool_decide _).
Qed.

Lemma live_one_shots_recurring t s e : live_one_shots t [Recurring s e] = [].
Proof. reflexivity. Qed.

Lemma schedule_reminder_plan task_id t d w :
  due_time t = Some d →
  jobs (schedule_reminder task_id t w)
  = foldl (install_if_future task_id (now w)) (jobs w)
      (reminder_plan (priority t) d)
  ∧ reminders (schedule_reminder task_id t w)
  = (reminders w ++
     (spec_record task_id t (now w) <$>
        live_one_shots (now w) (reminder_plan (priority t) d)))%list.
Proof.
  intros Hd. destruct urgent_types as (E30 & E15 & E5).
  unfold schedule_reminder, reminder_plan. rewrite Hd.
  destruct (decide (priority t = "urgent"));
    [|destruct (decide (priority t = "high"))];
    cbn [foldl]; rewrite ?E30, ?E15, ?E5.
  - fold (single_if_future task_id t (d - timedelta 30) "urgent_30min" w).
    set (w1 := single_if_future _ _ (d - timedelta 30) _ w).
    fold (single_if_future task_id t (d - timedelta 15) "urgent_15min" w1).
    set (w2 := single_if_future _ _ (d - timedelta 15) _ w1).
    fold (single_if_future task_id t (d - timedelta 5) "urgent_5min" w2).
    set (w3 := single_if_future _ _ (d - timedelta 5) _ w2).
    destruct (single_if_future_step task_id t (d - timedelta 30)
                "urgent_30min" w) as (J1 & R1 & N1).
    destruct (single_if_future_step task_id t (d - timedelta 15)
                "urgent_15min" w1) as (J2 & R2 & N2).
    destruct (single_if_future_step task_id t (d - timedelta 5)
                "urgent_5min" w2) as (J3 & R3 & N3).
    destruct (schedule_recurring_step task_id t d w3 Hd) as (J4 & R4).
    fold w1 in J1, R1, N1. fold w2 in J2, R2, N2. fold w3 in J3, R3, N3.
    rewrite J4, R4, J3, R3, N3, J2, R2, N2, J1, R1, N1.
    split; [done|].
    rewrite (live_one_shots_cons _ _ (_ :: _ :: _)),
      (live_one_shots_cons _ _ (_ :: _)), (live_one_shots_cons _ _ [_]),
      live_one_shots_recurring, app_nil_r, !fmap_app, <- !app_assoc.
    done.
  - fold (single_if_future task_id t (d - timedelta 15) "high_15min" w).
    set (w1 := single_if_future _ _ _ _ w).
    destruct (single_if_future_step task_id t (d - timedelta 15)
                "high_15min" w) as (J1 & R1 & N1).
    destruct (schedule_recurring_step task_id t d w1 Hd) as (J4 & R4).
    fold w1 in J1, R1, N1. rewrite J4, R4, J1, R1, N1.
    split; [done|].
    by rewrite (live_one_shots_cons _ _ [_]), live_one_shots_recurring,
      app_nil_r.
  - fold (single_if_future task_id t (d - timedelta 15) "standard_15min" w).
    destruct (single_if_future_step task_id t (d - timedelta 15)
                "standard_15min" w) as (J1 & R1 & N1).
    by rewrite J1, R1.
Qed.


Lemma plan_ids_NoDup task_id prio d :
  NoDup (spec_id task_id <$> reminder_plan prio d).
Proof.
  unfold reminder_plan. repeat case_decide; simpl;
    repeat (apply NoDup_cons; split); try apply NoDup_nil_2;
    rewrite ?not_elem_of_cons; repeat split;
    try apply not_elem_of_nil;
    try apply reminder_recurring_disjoint;
    intros E; apply reminder_job_id_inj in E; discriminate.
Qed.

Section plan_lookup.
Context (task_id : string) (t : Z).

Lemma install_if_future_other store l k :
  k ∉ spec_id task_id <$> l →
  foldl (install_if_future task_id t) store l !! k = store !! k.
Proof.
  revert store. induction l as [|a l IH]; intros store Hk; [done|].
  simpl in *. apply not_elem_of_cons in Hk as [Hka Hkl].
  rewrite IH by done. unfold install_if_future, install.
  destruct (bool_decide _); [|done]. by rewrite lookup_insert_ne.
Qed.

Lemma install_if_future_lookup store l js :
  NoDup (spec_id task_id <$> l) → js ∈ l →
  foldl (install_if_future task_id t) store l !! spec_id task_id js
  = if bool_decide (t < spec_time js) then Some (spec_job task_id js)
    else store !! spec_id task_id js.
Proof.
  revert store. induction l as [|a l IH]; intros store Hnd Hin.
  { by apply elem_of_nil in Hin. }
  simpl in *. apply NoDup_cons in Hnd as [Ha Hnd].
  apply elem_of_cons in Hin as [->|Hin].
  - rewrite install_if_future_other by done.
    unfold install_if_future, install.
    destruct (bool_decide _); [|done]. by rewrite lookup_insert_eq.
  - rewrite IH by done. destruct (bool_decide (t < spec_time js)); [done|].
    assert (spec_id task_id a ≠ spec_id task_id js) as Hne.
    { intros E. apply Ha. rewrite E. by apply list_elem_of_fmap_2. }
    unfold install_if_future, install.
    destruct (bool_decide _); [|done]. by rewrite lookup_insert_ne.
Qed.

End plan_lookup.

Lemma plan_install_idempotent task_id t prio d (store : gmap string Job) :
  let f := fun m => foldl (install_if_future task_id t) m
                      (reminder_plan prio d) in
  f (f store) = f store.
Proof.
  intros f. unfold f. apply map_eq. intros k.
  destruct (decide (k ∈ spec_id task_id <$> reminder_plan prio d))
    as [Hin|Hout].
  - apply list_elem_of_fmap in Hin as (js & -> & Hjs).
    rewrite !install_if_future_lookup by (apply plan_ids_NoDup || done).
    by destruct (bool_decide _).
  - by rewrite !install_if_future_other.
Qed.






(** ** The overdue sweep *)

Lemma sweep_rows_frame l w :
  let w' := foldl sweep_row w l in
  jobs w' = jobs w ∧ reminders w' = reminders w ∧ outbox w' = outbox w
  ∧ botlog w' = botlog w ∧ now w' = now w.
Proof.
  revert w. induction l as [|row l IH]; intros w; [done|].
  cbn [foldl]. destruct (IH (sweep_row w row)) as (-> & -> & -> & -> & ->).
  done.
Qed.

Lemma sweep_rows_lookup l w k :
  NoDup l.*1 →
  tasks (foldl sweep_row w l) !! k
  = match (list_to_map l : gmap string Task) !! k with
    | Some t => Some (touch (now w) (set_status overdue t))
    | None => tasks w !! k
    end.
Proof.
  revert w. induction l as [|[i t] l IH]; intros w Hnd.
  { cbn [foldl]. by rewrite list_to_map_nil, lookup_empty. }
  rewrite fmap_cons in Hnd. apply NoDup_cons in Hnd as [Hi Hnd].
  cbn [foldl]. rewrite IH by done. rewrite list_to_map_cons.
  destruct (decide (i = k)) as [->|Hne].
  - apply not_elem_of_list_to_map_1 in Hi.
    assert ((list_to_map l : gmap string Task) !! k = None) as -> by exact Hi.
    rewrite lookup_insert_eq. unfold sweep_row, save.
    cbn [tasks with_tasks fst snd].
    by rewrite lookup_insert_eq.
  - rewrite lookup_insert_ne by done.
    destruct (list_to_map l !! k); [done|].
    unfold sweep_row, save. cbn [tasks with_tasks fst snd].
    by rewrite lookup_insert_ne.
Qed.

Lemma check_overdue_tasks_lookup w k :
  tasks (check_overdue_tasks w) !! k
  = match tasks w !! k with
    | Some t =>
        if is_overdue_row (now w) (k, t)
        then Some (touch (now w) (set_status overdue t))
        else Some t
    | None => None
    end.
Proof.
  unfold check_overdue_tasks.
  set (l := filter _ (map_to_list (tasks w))).
  assert (NoDup l.*1) as Hnd.
  { apply (sublist_NoDup _ ((map_to_list (tasks w)).*1)).
    - apply NoDup_fst_map_to_list.
    - apply fmap_sublist, sublist_filter. }
  change (foldl _ w l) with (foldl sweep_row w l).
  rewrite sweep_rows_lookup by done.
  destruct (list_to_map l !! k) as [t|] eqn:Hl.
  - apply elem_of_list_to_map in Hl; [|done].
    apply list_elem_of_filter in Hl as [Hov Hin].
    apply elem_of_map_to_list in Hin. rewrite Hin.
    by destruct (is_overdue_row (now w) (k, t)).
  - destruct (tasks w !! k) as [t|] eqn:Hk; [|done].
    destruct (is_overdue_row (now w) (k, t)) eqn:Hov; [|done].
    apply not_elem_of_list_to_map in Hl. exfalso. apply Hl.
    apply list_elem_of_fmap. exists (k, t). split; [done|].
    apply list_elem_of_filter. split.
    + by rewrite Hov.
    + by apply elem_of_map_to_list.
Qed.

Lemma check_overdue_tasks_frame w :
  let w' := check_overdue_tasks w in
  jobs w' = jobs w ∧ reminders w' = reminders w ∧ outbox w' = outbox w
  ∧ botlog w' = botlog w ∧ now w' = now w.
Proof. apply sweep_rows_frame. Qed.

(** ** Effects of the firing bodies and of the callbacks *)

Ltac world_simpl :=
  cbn [tasks reminders jobs outbox botlog now with_tasks with_reminders
       with_jobs with_outbox with_botlog with_now add_job create_reminder
       create_botlog save mark_completed] in *.

Lemma status_move_trans s1 s2 s3 :
  status_move s1 s2 → status_move s2 s3 → status_move s1 s3.
Proof. intros [] H; inversion H; subst; constructor. Qed.

Lemma stop_recurring_effect task_id w :
  let w' := stop_recurring_reminders task_id w in
  jobs w' = delete (recurring_job_id task_id) (jobs w)
  ∧ tasks w' = tasks w ∧ reminders w' = reminders w
  ∧ outbox w' = outbox w ∧ botlog w' = botlog w ∧ now w' = now w.
Proof.
  unfold stop_recurring_reminders, remove_job.
  destruct (jobs w !! recurring_job_id task_id) eqn:E; world_simpl; [done|].
  by rewrite delete_id.
Qed.

Lemma send_reminder_completed task_id rt w t :
  tasks w !! task_id = Some t → status t = completed →
  send_reminder task_id rt w = w.
Proof.
  intros Ht Hs. unfold send_reminder. rewrite Ht.
  by destruct (decide (status t = completed)).
Qed.

Lemma send_recurring_completed task_id w t :
  tasks w !! task_id = Some t → status t = completed →
  send_recurring_reminder task_id w = stop_recurring_reminders task_id w.
Proof.
  intros Ht Hs. unfold send_recurring_reminder. rewrite Ht.
  by destruct (decide (status t = completed)).
Qed.

Lemma send_reminder_effect task_id rt w :
  let w' := send_reminder task_id rt w in
  tasks w' = tasks w ∧ jobs w' = jobs w ∧ reminders w' = reminders w
  ∧ now w' = now w ∧ sends_at_most_one w w'.
Proof.
  unfold send_reminder, sends_at_most_one.
  destruct (tasks w !! task_id) as [t|] eqn:Ht; [|by auto 10].
  destruct (decide (status t = completed)); [by auto 10|].
  destruct (due_time t); [|by auto 10].
  world_simpl. repeat split; try done.
  right. eexists _, t. split; [reflexivity|]. by cbn [n_task].
Qed.

Lemma send_recurring_effect task_id w :
  let w' := send_recurring_reminder task_id w in
  tasks w' = tasks w ∧ reminders w' = reminders w ∧ now w' = now w
  ∧ (jobs w' = jobs w ∨ jobs w' = delete (recurring_job_id task_id) (jobs w))
  ∧ sends_at_most_one w w'.
Proof.
  unfold send_recurring_reminder, sends_at_most_one.
  destruct (stop_recurring_effect task_id w) as (Hj & Ht & Hr & Ho & _ & Hn).
  destruct (tasks w !! task_id) as [t|] eqn:Htask; [|by auto 10].
  destruct (decide (status t = completed)); [by auto 10|].
  destruct (due_time t); [|by auto 10].
  world_simpl. repeat split; try done; [by left|].
  right. eexists _, t. split; [reflexivity|]. by cbn [n_task].
Qed.

Lemma tasks_evolve_same w w' : tasks w' = tasks w → tasks_evolve w w'.
Proof.
  intros E. split.
  - intros k t Ht. exists t. rewrite E. split; [done|constructor].
  - intros k t' Hn Hs. rewrite E in Hs. congruence.
Qed.

Lemma jobs_shrink_same w w' : jobs w' = jobs w → jobs_shrink w w'.
Proof. intros E k j. by rewrite E. Qed.

Lemma jobs_shrink_delete w w' i :
  jobs w' = delete i (jobs w) → jobs_shrink w w'.
Proof. intros E k j. rewrite E. by intros [_ ?]%lookup_delete_Some. Qed.

Ltac unchanged :=
  split_and!;
  first [ done | by apply jobs_shrink_same | by apply tasks_evolve_same ].

Lemma mark_completed_evolve task_id t w :
  tasks w !! task_id = Some t →
  tasks_evolve w (mark_completed task_id t w).
Proof.
  intros Ht. split.
  - intros k t0 Hk. world_simpl.
    destruct (decide (task_id = k)) as [<-|Hne].
    + rewrite lookup_insert_eq. eexists. split; [done|]. constructor.
    + rewrite lookup_insert_ne by done. exists t0. split; [done|constructor].
  - intros k t' Hn. world_simpl.
    rewrite lookup_insert_ne by congruence. congruence.
Qed.

Lemma handle_callback_effect data w :
  let w' := handle_callback data w in
  outbox w' = outbox w ∧ reminders w' = reminders w ∧ now w' = now w
  ∧ jobs_shrink w w' ∧ tasks_evolve w w'.
Proof.
  unfold handle_callback.
  destruct (String.prefix "complete_" data).
  - set (task_id := after_underscore data).
    destruct (tasks w !! task_id) as [t|] eqn:Ht; [|unchanged].
    pose proof (mark_completed_evolve task_id t w Ht) as Hev.
    set (w1 := mark_completed task_id t w) in *.
    destruct (stop_recurring_effect task_id w1)
      as (Hj & Htk & Hr & Ho & _ & Hn).
    unfold jobs_shrink, tasks_evolve in *.
    destruct (bool_decide (priority t ∈ ["high"; "urgent"])); world_simpl.
    + rewrite Ho, Hr, Hn. split_and!; try done.
      * intros k j. rewrite Hj. by intros [_ ?]%lookup_delete_Some.
      * rewrite Htk. apply Hev.
      * rewrite Htk. apply Hev.
    + split_and!; try done; apply Hev.
  - destruct (String.prefix "stop_reminders_" data); [|unchanged].
    set (task_id := after_underscore (after_underscore data)).
    destruct (stop_recurring_effect task_id w)
      as (Hj & Htk & Hr & Ho & _ & Hn).
    destruct (tasks (stop_recurring_reminders task_id w) !! task_id);
      world_simpl; rewrite ?Ho, ?Hr, ?Hn; split_and!; try done;
      try (by eapply jobs_shrink_delete); by apply tasks_evolve_same.
Qed.

Lemma schedule_reminder_guarded task_id t w :
  match due_time t with
  | Some _ => schedule_reminder task_id t w
  | None => w
  end = schedule_reminder task_id t w.
Proof. unfold schedule_reminder. by destruct (due_time t). Qed.

Lemma create_task_effect uuid ti de due prio mid w :
  let w' := create_task uuid ti de due prio mid w in
  outbox w' = outbox w ∧ now w' = now w ∧ tasks_evolve w w'
  ∧ (jobs w' = jobs w ∨ (tasks w !! uuid = None ∧ jobs_grow_for uuid w w')).
Proof.
  unfold create_task.
  destruct (tasks w !! uuid) as [t0|] eqn:Hfresh.
  { split_and!; try done; [by apply tasks_evolve_same | by left]. }
  rewrite schedule_reminder_guarded.
  set (task := mkTask ti de due prio pending (now w) (now w) false mid).
  set (w1 := with_tasks (<[uuid := task]> (tasks w)) w).
  destruct (schedule_reminder_frame uuid task w1) as (Ht & Ho & _ & Hn).
  unfold tasks_evolve. world_simpl. rewrite Ht, Ho, Hn. unfold w1.
  world_simpl. split_and!; try done.
  - intros k t Hk. exists t. rewrite lookup_insert_ne by congruence.
    split; [done|constructor].
  - intros k t' Hnone [[<- <-]|[_ Hold]]%lookup_insert_Some; [done|].
    congruence.
  - right. split; [done|]. intros k j Hk. world_simpl.
    destruct due as [d|].
    2: { left. revert Hk. unfold schedule_reminder. by cbn [due_time task]. }
    revert Hk.
    destruct (schedule_reminder_plan uuid task d
                (with_tasks (<[uuid := task]> (tasks w)) w) eq_refl)
      as [-> _].
    world_simpl.
    destruct (decide (k ∈ spec_id uuid <$> reminder_plan (priority task) d))
      as [Hin|Hout].
    + apply list_elem_of_fmap in Hin as (js & -> & Hjs).
      rewrite install_if_future_lookup by (apply plan_ids_NoDup || done).
      destruct (bool_decide _); [|by left].
      intros [= <-]. right. by exists js.
    + rewrite install_if_future_other by done. by left.
Qed.

Lemma check_overdue_tasks_evolve w : tasks_evolve w (check_overdue_tasks w).
Proof.
  split.
  - intros k t Hk. rewrite check_overdue_tasks_lookup, Hk.
    destruct (is_overdue_row (now w) (k, t)) eqn:Hov.
    + eexists. split; [done|]. unfold is_overdue_row in Hov.
      cbn [snd] in Hov. destruct (due_time t); [|done].
      apply andb_true_iff in Hov as [_ Hp%bool_decide_eq_true].
      rewrite Hp. cbn [status set_status touch]. constructor.
    + exists t. split; [done|constructor].
  - intros k t' Hn. by rewrite check_overdue_tasks_lookup, Hn.
Qed.

Lemma sends_at_most_one_same w w' :
  outbox w' = outbox w → sends_at_most_one w w'.
Proof. by left. Qed.

Lemma run_job_func_effect f w :
  let w' := run_job_func f w in
  reminders w' = reminders w ∧ now w' = now w ∧ jobs_shrink w w'
  ∧ tasks_evolve w w' ∧ sends_at_most_one w w'.
Proof.
  destruct f as [task_id rt|task_id|]; cbn [run_job_func].
  - destruct (send_reminder_effect task_id rt w) as (Ht & Hj & Hr & Hn & Hs).
    split_and!; try done;
      [by apply jobs_shrink_same | by apply tasks_evolve_same].
  - destruct (send_recurring_effect task_id w) as (Ht & Hr & Hn & Hj & Hs).
    split_and!; try done; [|by apply tasks_evolve_same].
    destruct Hj; [by apply jobs_shrink_same | by eapply jobs_shrink_delete].
  - destruct (check_overdue_tasks_frame w) as (Hj & Hr & Ho & _ & Hn).
    split_and!; try done;
      [by apply jobs_shrink_same | apply check_overdue_tasks_evolve
      | by apply sends_at_most_one_same].
Qed.

Lemma fire_effect job_id w :
  let w' := fire job_id w in
  reminders w' = reminders w ∧ now w' = now w ∧ jobs_shrink w w'
  ∧ tasks_evolve w w' ∧ sends_at_most_one w w'.
Proof.
  unfold fire. destruct (jobs w !! job_id) as [j|] eqn:Hj.
  2: { split_and!; try done;
         [by apply jobs_shrink_same | by apply tasks_evolve_same
         | by apply sends_at_most_one_same]. }
  destruct (trigger j); [|apply run_job_func_effect].
  set (w1 := with_jobs (delete job_id (jobs w)) w).
  destruct (run_job_func_effect (func j) w1) as (Hr & Hn & Hs & He & Ho).
  split_and!; try done.
  intros k j' Hk. apply Hs in Hk. unfold w1 in Hk. world_simpl.
  by apply lookup_delete_Some in Hk as [_ ?].
Qed.

Lemma step_effect w e :
  let w' := step w e in
  tasks_evolve w w' ∧ sends_at_most_one w w'
  ∧ (jobs_shrink w w'
     ∨ ∃ uuid, tasks w !! uuid = None ∧ jobs_grow_for uuid w w').
Proof.
  destruct e as [uuid ti de due prio mid|data|job_id|dt]; cbn [step].
  - destruct (create_task_effect uuid ti de due prio mid w)
      as (Ho & _ & He & Hj).
    split_and!; [done | by apply sends_at_most_one_same |].
    destruct Hj as [Hj|Hj]; [left; by apply jobs_shrink_same|right; eauto].
  - destruct (handle_callback_effect data w) as (Ho & _ & _ & Hj & He).
    split_and!; [done | by apply sends_at_most_one_same | by left].
  - destruct (fire_effect job_id w) as (_ & _ & Hj & He & Ho).
    split_and!; [done | done | by left].
  - split_and!;
      [by apply tasks_evolve_same | by apply sends_at_most_one_same
      | left; by apply jobs_shrink_same].
Qed.

Lemma run_cons e es w : run (e :: es) w = run es (step w e).
Proof. reflexivity. Qed.

Lemma run_status es w k t :
  tasks w !! k = Some t →
  ∃ t', tasks (run es w) !! k = Some t' ∧ status_move (status t) (status t').
Proof.
  revert w t. induction es as [|e es IH]; intros w t Ht.
  { exists t. split; [done|constructor]. }
  rewrite run_cons.
  destruct (step_effect w e) as ([Hev _] & _).
  destruct (Hev k t Ht) as (t1 & Ht1 & Hm1).
  destruct (IH (step w e) t1 Ht1) as (t2 & Ht2 & Hm2).
  exists t2. split; [done|]. by eapply status_move_trans.
Qed.

Lemma status_move_completed s : status_move completed s → s = completed.
Proof. by inversion 1. Qed.

(** *** A completed task and its recurring job *)

Section completed_task.
Context (task_id : string).

Lemma recurring_id_not_grown uuid w js :
  is_Some (tasks w !! task_id) → tasks w !! uuid = None →
  recurring_job_id task_id ≠ spec_id uuid js.
Proof.
  intros [t Ht] Hnone E. destruct js as [kind ft|st ev]; cbn [spec_id] in E.
  - by eapply reminder_recurring_disjoint.
  - apply recurring_job_id_inj in E as <-. congruence.
Qed.

Lemma completed_inv_step w e :
  completed_inv task_id w → completed_inv task_id (step w e).
Proof.
  intros [(t & Ht & Hs) Hwf].
  destruct (step_effect w e) as ([Hev _] & _ & Hjobs).
  destruct (Hev _ _ Ht) as (t' & Ht' & Hm).
  rewrite Hs in Hm. apply status_move_completed in Hm.
  split; [by exists t'|].
  intros j Hj. destruct Hjobs as [Hsh|(uuid & Hnone & Hgr)].
  - apply Hwf. by apply Hsh.
  - destruct (Hgr _ _ Hj) as [Hold|(js & E & _)]; [by apply Hwf|].
    exfalso.
    exact (recurring_id_not_grown uuid w js (mk_is_Some _ _ Ht) Hnone E).
Qed.

Lemma completed_absent_step w e :
  completed_inv task_id w →
  jobs w !! recurring_job_id task_id = None →
  jobs (step w e) !! recurring_job_id task_id = None.
Proof.
  intros [(t & Ht & Hs) Hwf] Habs.
  destruct (jobs (step w e) !! recurring_job_id task_id) as [j|] eqn:Hj;
    [exfalso|done].
  destruct (step_effect w e) as (_ & _ & [Hsh|(uuid & Hnone & Hgr)]).
  - apply Hsh in Hj. congruence.
  - destruct (Hgr _ _ Hj) as [Hold|(js & E & _)]; [congruence|].
    exfalso.
    exact (recurring_id_not_grown uuid w js (mk_is_Some _ _ Ht) Hnone E).
Qed.

Lemma completed_fire_removes w :
  completed_inv task_id w →
  jobs (fire (recurring_job_id task_id) w) !! recurring_job_id task_id
  = None.
Proof.
  intros [(t & Ht & Hs) Hwf]. unfold fire.
  destruct (jobs w !! recurring_job_id task_id) as [j|] eqn:Hj; [|done].
  rewrite (Hwf j eq_refl). cbn [run_job_func].
  destruct (trigger j).
  - erewrite send_recurring_completed by (world_simpl; done).
    destruct (stop_recurring_effect task_id
                (with_jobs (delete (recurring_job_id task_id) (jobs w)) w))
      as (-> & _).
    apply lookup_delete_eq.
  - erewrite send_recurring_completed by done.
    destruct (stop_recurring_effect task_id w) as (-> & _).
    apply lookup_delete_eq.
Qed.
End completed_task.


(** ** Scheduling claims *)





(** C6. Scheduling the same task twice in a row, with the task and the
    clock unchanged, leaves the job store of a single call: the job ids
    are functions of the task id and the reminder kind, and installing at
    an id already present replaces the job there. *)
Theorem schedule_reminder_idempotent_on_jobs
    (task_id : string) (t : Task) (w : World) :
  jobs (schedule_reminder task_id t (schedule_reminder task_id t w))
  = jobs (schedule_reminder task_id t w).
Proof.
  destruct (due_time t) as [d|] eqn:Hd.
  2: { unfold schedule_reminder. by rewrite Hd. }
  destruct (schedule_reminder_frame task_id t w) as (_ & _ & _ & Hnow).
  destruct (schedule_reminder_plan task_id t d
              (schedule_reminder task_id t w) Hd) as [-> _].
  rewrite Hnow.
  destruct (schedule_reminder_plan task_id t d w Hd) as [-> _].
  apply plan_install_idempotent.
Qed.



(** ** The overdue sweep claim *)

(** C8. One sweep moves every task that is pending with a due time
    strictly before the clock to overdue (stamping the saved row), and
    leaves every other task as it was: tasks that are not pending, tasks
    without due time and pending tasks due now or later.  It creates and
    deletes no task and touches neither the job store, the reminder
    records nor the channel. *)
Theorem check_overdue_tasks_sweeps_exactly (w : World) (task_id : string) :
  let w' := check_overdue_tasks w in
  (∀ t d, tasks w !! task_id = Some t → due_time t = Some d →
          d < now w → status t = pending →
          tasks w' !! task_id
          = Some (touch (now w) (set_status overdue t)))
  ∧ (∀ t, tasks w !! task_id = Some t →
          (status t ≠ pending ∨ due_time t = None
           ∨ ∃ d, due_time t = Some d ∧ (now w ≤ d)%Z) →
          tasks w' !! task_id = Some t)
  ∧ (tasks w !! task_id = None → tasks w' !! task_id = None)
  ∧ jobs w' = jobs w ∧ reminders w' = reminders w ∧ outbox w' = outbox w
  ∧ now w' = now w.
Proof.
  intros w'. unfold w'. repeat split.
  - intros t d Ht Hd Hlt Hst. rewrite check_overdue_tasks_lookup, Ht.
    unfold is_overdue_row. cbn [snd]. rewrite Hd.
    by rewrite !bool_decide_eq_true_2.
  - intros t Ht Hcase. rewrite check_overdue_tasks_lookup, Ht.
    unfold is_overdue_row. cbn [snd].
    destruct (due_time t) as [d|] eqn:Hd; [|done].
    destruct Hcase as [Hst|[Hnone|(d' & Hd' & Hle)]].
    + rewrite (bool_decide_eq_false_2 (status t = pending)) by done.
      by rewrite andb_false_r.
    + done.
    + injection Hd' as <-.
      rewrite (bool_decide_eq_false_2 (d < now w)) by lia. done.
  - intros Hnone. by rewrite check_overdue_tasks_lookup, Hnone.
  - apply check_overdue_tasks_frame.
  - apply check_overdue_tasks_frame.
  - apply check_overdue_tasks_frame.
  - apply check_overdue_tasks_frame.
Qed.

Lemma check_overdue_tasks_sweeps_exactly_witness :
  status <$> tasks (check_overdue_tasks sweep_world) !! task1 = Some overdue
  ∧ status <$> tasks (check_overdue_tasks sweep_world) !! task2
    = Some completed.
Proof.
  split.
  - rewrite (proj1 (check_overdue_tasks_sweeps_exactly sweep_world task1)
               (mkTask "late" "" (Some 100) "medium" pending 0 0 false None)
               100 eq_refl eq_refl eq_refl eq_refl).
    reflexivity.
  - rewrite (proj1 (proj2
               (check_overdue_tasks_sweeps_exactly sweep_world task2))
               (mkTask "done" "" (Some 100) "medium" completed 0 0 false
                  None)
               eq_refl ltac:(left; discriminate)).
    reflexivity.
Defined.

(** ** Completion, firing and lifecycle claims *)

Lemma after_underscore_complete task_id :
  after_underscore ("complete_" +:+ task_id) = task_id.
Proof. reflexivity. Qed.

Lemma prefix_complete task_id :
  String.prefix "complete_" ("complete_" +:+ task_id) = true.
Proof.
  string_norm. cbn [String.prefix].
  repeat (destruct (ascii_dec _ _); [|done]). apply prefix_nil.
Qed.

(** The example scenario of the specification: an urgent task due at [T]
    is created at [T - 60] minutes, its first reminder fires at [T - 30],
    the task is completed at [T - 20]; the later firings deliver nothing,
    so the channel holds the one notification, and after the last one-shot
    job has fired only the sweep is left in the job store. *)
Example urgent_task_completed_early :
  let w := run [TaskCreated task1 "file the report" "" (Some 6000000000)
                  "urgent" None;
                ClockAdvanced 1800000000;
                TimerFired (reminder_job_id task1 "urgent_30min");
                ClockAdvanced 600000000;
                CallbackQuery ("complete_" +:+ task1);
                ClockAdvanced 300000000;
                TimerFired (reminder_job_id task1 "urgent_15min");
                ClockAdvanced 600000000;
                TimerFired (reminder_job_id task1 "urgent_5min");
                ClockAdvanced 600000000;
                TimerFired (recurring_job_id task1)]
             (initial_world 2400000000) in
  outbox w
  = [mkNotification task1 UrgentReminder red "file the report" ""
       (DueIn 30) ["complete_" +:+ task1; "stop_reminders_" +:+ task1]]
  ∧ dom (jobs w) = {[ "check_overdue" ]}.
Proof. split; vm_compute; reflexivity. Qed.

(** C3 (as stated, refuted). After the complete callback on an urgent task
    the one-shot job due thirty minutes before the deadline is still in
    the job store. *)
Lemma complete_callback_leaves_one_shot_installed :
  status <$>
    tasks (handle_callback ("complete_" +:+ task1) scheduled_world) !! task1
  = Some completed
  ∧ jobs (handle_callback ("complete_" +:+ task1) scheduled_world)
      !! (reminder_job_id task1 "urgent_30min")
    = Some (mkJob (send_reminder_job task1 "urgent_30min")
              (DateTrigger 4200000000)).
Proof. split; vm_compute; reflexivity. Qed.

(** C3 (amended). The complete callback on a stored task marks it
    completed and, in the same call, removes the task's recurring job when
    the priority is high or urgent; it removes nothing else: every one-shot
    job of the task stays as it was, and for other priorities the job store
    is unchanged.  Nothing is sent by the callback. *)
Theorem complete_callback_stops_recurring_only
    (w : World) (task_id : string) (t : Task) :
  tasks w !! task_id = Some t →
  let w' := handle_callback ("complete_" +:+ task_id) w in
  tasks w' !! task_id = Some (touch (now w) (set_status completed t))
  ∧ jobs w'
    = (if bool_decide (priority t ∈ ["high"; "urgent"])
       then delete (recurring_job_id task_id) (jobs w)
       else jobs w)
  ∧ (∀ kind, jobs w' !! reminder_job_id task_id kind
             = jobs w !! reminder_job_id task_id kind)
  ∧ outbox w' = outbox w.
Proof.
  intros Ht w'.
  assert (tasks w' !! task_id = Some (touch (now w) (set_status completed t))
          ∧ jobs w'
            = (if bool_decide (priority t ∈ ["high"; "urgent"])
               then delete (recurring_job_id task_id) (jobs w)
               else jobs w)
          ∧ outbox w' = outbox w) as (Htasks & Hjobs & Hout).
  { unfold w', handle_callback.
    rewrite prefix_complete, after_underscore_complete, Ht.
    destruct (stop_recurring_effect task_id (mark_completed task_id t w))
      as (Hj & Htk & _ & Ho & _).
    destruct (bool_decide (priority t ∈ ["high"; "urgent"])); world_simpl.
    - rewrite Hj, Htk, Ho. world_simpl. by rewrite lookup_insert_eq.
    - by rewrite lookup_insert_eq. }
  split_and!; try done.
  intros kind. rewrite Hjobs.
  destruct (bool_decide _); [|done].
  rewrite lookup_delete_ne; [done|].
  intros E. symmetry in E. by eapply reminder_recurring_disjoint.
Qed.

Lemma complete_callback_stops_recurring_only_witness :
  jobs (handle_callback ("complete_" +:+ task1) scheduled_world)
  = delete (recurring_job_id task1) (jobs scheduled_world).
Proof.
  exact (proj1 (proj2
    (complete_callback_stops_recurring_only scheduled_world task1
       (mkTask "file the report" "" (Some 6000000000) "urgent" pending 0 0
          false None)
       eq_refl))).
Defined.

(** C4. Once a task is completed, whatever happens afterwards, the firing
    of a one-shot reminder job of that task hands nothing to the
    notification channel. *)
Theorem completed_task_one_shot_fires_silently
    (w : World) (task_id : string) (t : Task) (es : list Event)
    (job_id : string) (j : Job) (reminder_type : string) :
  tasks w !! task_id = Some t →
  status t = completed →
  jobs (run es w) !! job_id = Some j →
  func j = send_reminder_job task_id reminder_type →
  outbox (fire job_id (run es w)) = outbox (run es w).
Proof.
  intros Ht Hs Hj Hf.
  destruct (run_status es w task_id t Ht) as (t' & Ht' & Hm).
  rewrite Hs in Hm. apply status_move_completed in Hm.
  unfold fire. rewrite Hj, Hf. cbn [run_job_func].
  destruct (trigger j).
  - by erewrite send_reminder_completed by (world_simpl; done).
  - by erewrite send_reminder_completed by done.
Qed.

Lemma completed_task_one_shot_fires_silently_witness :
  outbox
    (fire (reminder_job_id task1 "urgent_15min")
       (run [ClockAdvanced 5100000000]
          (handle_callback ("complete_" +:+ task1) scheduled_world)))
  = outbox
      (run [ClockAdvanced 5100000000]
         (handle_callback ("complete_" +:+ task1) scheduled_world)).
Proof.
  apply (completed_task_one_shot_fires_silently
           (handle_callback ("complete_" +:+ task1) scheduled_world) task1
           (mkTask "file the report" "" (Some 6000000000) "urgent" completed
              0 0 false None)
           [ClockAdvanced 5100000000] (reminder_job_id task1 "urgent_15min")
           (mkJob (send_reminder_job task1 "urgent_15min")
              (DateTrigger 5100000000))
           "urgent_15min").
  - vm_compute; reflexivity.
  - reflexivity.
  - vm_compute; reflexivity.
  - reflexivity.
Defined.

(** C5 (as stated, refuted). A task the sweep has marked overdue is not
    pending, yet the recurring job delivers when it fires and stays
    installed. *)
Lemma overdue_task_is_still_notified :
  status <$> tasks overdue_world !! task1 = Some overdue
  ∧ outbox (fire (recurring_job_id task1) overdue_world)
    = (outbox overdue_world ++
       [mkNotification task1 UrgentStillPending red "file the report" ""
          (OverdueBy 5)
          ["complete_" +:+ task1; "stop_reminders_" +:+ task1]])%list
  ∧ jobs (fire (recurring_job_id task1) overdue_world)
      !! recurring_job_id task1
    = Some (mkJob (send_recurring_reminder_job task1)
              (IntervalTrigger 300000000 7380000000)).
Proof. split_and!; vm_compute; reflexivity. Qed.

Lemma notified_step task_id w e :
  (∃ t, tasks w !! task_id = Some t ∧ status t = completed) →
  notified task_id (step w e) = notified task_id w.
Proof.
  intros (t & Ht & Hs). unfold notified.
  destruct (step_effect w e) as (_ & [->|(n & t' & -> & Hn & Hs')] & _);
    [done|].
  rewrite filter_app, filter_cons, filter_nil.
  destruct (decide (n_task n = task_id)) as [E|_]; [|by rewrite app_nil_r].
  rewrite E in Hn. congruence.
Qed.

Lemma firings_absent task_id es w :
  completed_inv task_id w →
  jobs w !! recurring_job_id task_id = None →
  firings (recurring_job_id task_id) es w = 0%nat.
Proof.
  revert w. induction es as [|e es IH]; intros w Hinv Habs; [done|].
  cbn [firings].
  rewrite IH
    by (by apply completed_inv_step || by apply completed_absent_step).
  destruct e; try done. case_decide; [|done]. by rewrite Habs.
Qed.

(** C5 (amended). Every firing body looks the task up by id in the
    repository when it runs.  If the task is then completed, a one-shot
    firing changes nothing and a recurring firing sends nothing and removes
    its own job.  Hence, from the moment a task is completed, no reminder
    about it reaches the channel, and its recurring job runs at most once
    more. *)
Theorem completed_task_firings
    (w : World) (task_id : string) (t : Task) :
  tasks w !! task_id = Some t →
  status t = completed →
  (∀ j, jobs w !! recurring_job_id task_id = Some j →
        func j = send_recurring_reminder_job task_id) →
  (∀ reminder_type, send_reminder task_id reminder_type w = w)
  ∧ (outbox (send_recurring_reminder task_id w) = outbox w
     ∧ jobs (send_recurring_reminder task_id w)
       = delete (recurring_job_id task_id) (jobs w))
  ∧ (∀ es, notified task_id (run es w) = notified task_id w)
  ∧ (∀ es, (firings (recurring_job_id task_id) es w ≤ 1)%nat).
Proof.
  intros Ht Hs Hwf. split_and!.
  - intros rt. by eapply send_reminder_completed.
  - erewrite send_recurring_completed by done.
    by destruct (stop_recurring_effect task_id w) as (_ & _ & _ & -> & _).
  - erewrite send_recurring_completed by done.
    by destruct (stop_recurring_effect task_id w) as (-> & _).
  - intros es. assert (∃ t, tasks w !! task_id = Some t
                            ∧ status t = completed) as Hc by eauto.
    clear Ht Hs Hwf. revert w Hc.
    induction es as [|e es IH]; intros w Hc; [done|].
    rewrite run_cons, IH; [by apply notified_step|].
    destruct Hc as (t0 & Ht0 & Hs0).
    destruct (step_effect w e) as ([Hev _] & _).
    destruct (Hev _ _ Ht0) as (t' & Ht' & Hm).
    rewrite Hs0 in Hm. apply status_move_completed in Hm. eauto.
  - intros es.
    assert (completed_inv task_id w) as Hinv by (split; eauto).
    clear Ht Hs Hwf. revert w Hinv.
    induction es as [|e es IH]; intros w Hinv; [cbn; lia|].
    cbn [firings].
    pose proof (IH (step w e) (completed_inv_step task_id w e Hinv)) as Hle.
    destruct e as [?|?|i|?]; try (cbn [Nat.add]; exact Hle).
    case_decide as Hi; [|cbn [Nat.add]; exact Hle]. subst i.
    destruct (jobs w !! recurring_job_id task_id) eqn:Hj;
      [|cbn [Nat.add]; exact Hle].
    rewrite firings_absent; [lia | by apply completed_inv_step |].
    cbn [step]. by apply completed_fire_removes.
Qed.

Lemma completed_task_firings_witness :
  (firings (recurring_job_id task1)
     [ClockAdvanced 6300000000%N; TimerFired (recurring_job_id task1);
      ClockAdvanced 300000000%N; TimerFired (recurring_job_id task1)]
     completed_world
   ≤ 1)%nat.
Proof.
  apply (proj2 (proj2 (proj2
    (completed_task_firings completed_world task1
       (mkTask "file the report" "" (Some 6000000000) "urgent" completed
          0 0 false None)
       eq_refl eq_refl
       ltac:(intros j Hj; vm_compute in Hj; by injection Hj as <-))))).
Defined.

(** C7 (as stated, refuted). The complete callback on a cancelled task
    changes its status to completed: cancelled is not terminal. *)
Lemma complete_callback_moves_cancelled_task :
  status <$> tasks cancelled_world !! task1 = Some cancelled
  ∧ status <$>
      tasks (step cancelled_world (CallbackQuery ("complete_" +:+ task1)))
        !! task1
    = Some completed.
Proof. split; vm_compute; reflexivity. Qed.

(** C7 (amended). Along every run of the engine a stored task stays stored
    and its status either stays, moves from pending to overdue, or moves to
    completed.  So completed is terminal, overdue is entered only from
    pending, no task returns to pending and none becomes cancelled; and a
    task that an event adds to the repository enters it as pending. *)
Theorem status_moves_forward
    (w : World) (es : list Event) (task_id : string) :
  (∀ t, tasks w !! task_id = Some t →
     ∃ t', tasks (run es w) !! task_id = Some t'
           ∧ status_move (status t) (status t')
           ∧ (status t = completed → status t' = completed)
           ∧ (status t' = overdue →
              status t = pending ∨ status t = overdue)
           ∧ (status t' = pending → status t = pending)
           ∧ (status t' = cancelled → status t = cancelled))
  ∧ (tasks w !! task_id = None →
     ∀ e t', tasks (step w e) !! task_id = Some t' → status t' = pending).
Proof.
  split.
  - intros t Ht.
    destruct (run_status es w task_id t Ht) as (t' & Ht' & Hm).
    exists t'. split_and!; try done.
    + intros E. rewrite E in Hm. by apply status_move_completed.
    + intros E. rewrite E in Hm. inversion Hm; auto.
    + intros E. rewrite E in Hm. by inversion Hm.
    + intros E. rewrite E in Hm. by inversion Hm.
  - intros Hnone e t' Ht'.
    destruct (step_effect w e) as ([_ Hnew] & _). by eapply Hnew.
Qed.

Lemma status_moves_forward_witness :
  ∃ t', tasks (run [ClockAdvanced 6100000000%N; TimerFired "check_overdue";
                    CallbackQuery ("complete_" +:+ task1)]
                 scheduled_world) !! task1
        = Some t'
        ∧ status_move pending (status t').
Proof.
  destruct (proj1 (status_moves_forward scheduled_world
                     [ClockAdvanced 6100000000%N; TimerFired "check_overdue";
                      CallbackQuery ("complete_" +:+ task1)] task1)
              (mkTask "file the report" "" (Some 6000000000) "urgent"
                 pending 0 0 false None)
              eq_refl) as (t' & Ht' & Hm & _).
  exists t'. split; [exact Ht'|exact Hm].
Defined.




(** * Further properties of the code *)

Local Open Scope Z_scope.

(** ** Buttons and callbacks *)

Lemma prefix_complete_stop task_id :
  String.prefix "complete_" ("stop_reminders_" +:+ task_id) = false.
Proof. reflexivity. Qed.

Lemma prefix_stop task_id :
  String.prefix "stop_reminders_" ("stop_reminders_" +:+ task_id) = true.
Proof.
  string_norm. cbn [String.prefix].
  repeat (destruct (ascii_dec _ _); [|done]). apply prefix_nil.
Qed.

Lemma after_underscore_stop task_id :
  after_underscore (after_underscore ("stop_reminders_" +:+ task_id))
  = task_id.
Proof. reflexivity. Qed.

Lemma handle_callback_complete w task_id t :
  tasks w !! task_id = Some t →
  let w' := handle_callback ("complete_" +:+ task_id) w in
  tasks w' = <[task_id := touch (now w) (set_status completed t)]> (tasks w)
  ∧ jobs w'
    = (if bool_decide (priority t ∈ ["high"; "urgent"])
       then delete (recurring_job_id task_id) (jobs w)
       else jobs w)
  ∧ outbox w' = outbox w ∧ reminders w' = reminders w ∧ now w' = now w
  ∧ botlog w'
    = (botlog w ++ [mkBotLog "task_completed" task_id (title t)])%list.
Proof.
  intros Ht. unfold handle_callback.
  rewrite prefix_complete, after_underscore_complete, Ht.
  destruct (stop_recurring_effect task_id (mark_completed task_id t w))
    as (Hj & Htk & Hr & Ho & Hb & Hn).
  destruct (bool_decide (priority t ∈ ["high"; "urgent"])); world_simpl.
  - by rewrite Hj, Htk, Ho, Hr, Hb, Hn.
  - done.
Qed.

Lemma handle_callback_stop w task_id :
  let w' := handle_callback ("stop_reminders_" +:+ task_id) w in
  jobs w' = delete (recurring_job_id task_id) (jobs w)
  ∧ tasks w' = tasks w ∧ outbox w' = outbox w ∧ reminders w' = reminders w
  ∧ now w' = now w
  ∧ botlog w'
    = match tasks w !! task_id with
      | Some t => (botlog w ++ [mkBotLog "info" task_id (title t)])%list
      | None => botlog w
      end.
Proof.
  unfold handle_callback.
  rewrite prefix_complete_stop, prefix_stop, after_underscore_stop.
  destruct (stop_recurring_effect task_id w)
    as (Hj & Htk & Hr & Ho & Hb & Hn).
  rewrite Htk.
  destruct (tasks w !! task_id); world_simpl;
    by rewrite Hj, Htk, Ho, Hr, Hb, Hn.
Qed.

Lemma complete_button_acts task_id :
  button_acts_on task_id ("complete_" +:+ task_id).
Proof.
  intros w t Ht. left.
  destruct (handle_callback_complete w task_id t Ht) as (-> & _).
  apply lookup_insert_eq.
Qed.

Lemma stop_button_acts task_id :
  button_acts_on task_id ("stop_reminders_" +:+ task_id).
Proof.
  intros w t Ht. right.
  by destruct (handle_callback_stop w task_id) as (-> & -> & _).
Qed.

Lemma send_reminder_outbox w task_id rt t d :
  tasks w !! task_id = Some t → status t ≠ completed →
  due_time t = Some d →
  outbox (send_reminder task_id rt w)
  = (outbox w ++
     [mkNotification task_id
        (if contains "urgent" rt then UrgentReminder
         else if contains "high" rt then HighPriorityReminder
         else PlainReminder)
        (get_priority_emoji (priority t)) (title t) (description t)
        (if bool_decide (0 < whole_minutes (d - now w))
         then DueIn (whole_minutes (d - now w))
         else if bool_decide (whole_minutes (d - now w) < 0)
              then OverdueBy (Z.abs (whole_minutes (d - now w)))
              else DueNow)
        (["complete_" +:+ task_id] ++
         (if bool_decide (priority t ∈ ["high"; "urgent"])
          then ["stop_reminders_" +:+ task_id] else []))])%list
  ∧ botlog (send_reminder task_id rt w)
    = (botlog w ++ [mkBotLog "reminder_sent" task_id rt])%list
  ∧ jobs (send_reminder task_id rt w) = jobs w
  ∧ tasks (send_reminder task_id rt w) = tasks w.
Proof.
  intros Ht Hs Hd. unfold send_reminder. rewrite Ht.
  destruct (decide (status t = completed)); [done|]. by rewrite Hd.
Qed.

Lemma send_recurring_outbox w task_id t d :
  tasks w !! task_id = Some t → status t ≠ completed →
  due_time t = Some d →
  send_recurring_reminder task_id w
  = with_outbox
      (outbox w ++
       [mkNotification task_id
          (if decide (priority t = "urgent") then UrgentStillPending
           else HighStillPending)
          (get_priority_emoji (priority t)) (title t) (description t)
          (OverdueBy (whole_minutes (now w - d)))
          ["complete_" +:+ task_id; "stop_reminders_" +:+ task_id]])%list
      w.
Proof.
  intros Ht Hs Hd. unfold send_recurring_reminder. rewrite Ht.
  destruct (decide (status t = completed)); [done|]. by rewrite Hd.
Qed.

(** X1. Every button under a reminder, one-shot or recurring, carries the
    id of the task the reminder is about: the complete button is always
    there, and pressing any of the buttons completes that very task or
    stops its recurring reminders. *)
Theorem reminder_buttons_round_trip
    (w : World) (task_id reminder_type : string) (t : Task) (d : Z) :
  tasks w !! task_id = Some t →
  status t ≠ completed →
  due_time t = Some d →
  (∃ n, outbox (send_reminder task_id reminder_type w)
        = (outbox w ++ [n])%list
        ∧ n_task n = task_id
        ∧ "complete_" +:+ task_id ∈ n_keyboard n
        ∧ ∀ b, b ∈ n_keyboard n → button_acts_on task_id b)
  ∧ (∃ n, outbox (send_recurring_reminder task_id w)
          = (outbox w ++ [n])%list
          ∧ n_task n = task_id
          ∧ "complete_" +:+ task_id ∈ n_keyboard n
          ∧ ∀ b, b ∈ n_keyboard n → button_acts_on task_id b).
Proof.
  intros Ht Hs Hd. split.
  - destruct (send_reminder_outbox w task_id reminder_type t d Ht Hs Hd)
      as (-> & _).
    eexists. split; [reflexivity|]. cbn [n_task n_keyboard].
    split_and!; [done | apply list_elem_of_here |].
    intros b [->|Hb]%elem_of_cons; [apply complete_button_acts|].
    destruct (bool_decide _); [|by apply elem_of_nil in Hb].
    apply list_elem_of_singleton in Hb as ->. apply stop_button_acts.
  - rewrite (send_recurring_outbox w task_id t d Ht Hs Hd).
    eexists. split; [reflexivity|]. cbn [n_task n_keyboard].
    split_and!; [done | apply list_elem_of_here |].
    intros b [->|Hb]%elem_of_cons; [apply complete_button_acts|].
    apply list_elem_of_singleton in Hb as ->. apply stop_button_acts.
Qed.

Lemma reminder_buttons_round_trip_witness :
  ∃ n, outbox (send_reminder task1 "urgent_30min" scheduled_world)
       = (outbox scheduled_world ++ [n])%list
       ∧ n_task n = task1.
Proof.
  destruct (proj1 (reminder_buttons_round_trip scheduled_world task1
                     "urgent_30min"
                     (mkTask "file the report" "" (Some 6000000000) "urgent"
                        pending 0 0 false None)
                     6000000000 eq_refl ltac:(discriminate) eq_refl))
    as (n & Hn & Ht & _).
  exists n. split; [exact Hn|exact Ht].
Defined.

(** X2. The stop-reminders callback removes the recurring job of the task
    named in its data and nothing else, whether or not that job or that
    task exists: no task changes, no one-shot job is removed, nothing is
    sent; a log entry is written only when the task exists. *)
Theorem stop_callback_removes_recurring_job_only
    (w : World) (task_id : string) :
  let w' := handle_callback ("stop_reminders_" +:+ task_id) w in
  jobs w' = delete (recurring_job_id task_id) (jobs w)
  ∧ (∀ id kind, jobs w' !! reminder_job_id id kind
                = jobs w !! reminder_job_id id kind)
  ∧ tasks w' = tasks w ∧ outbox w' = outbox w ∧ reminders w' = reminders w
  ∧ (tasks w !! task_id = None → botlog w' = botlog w).
Proof.
  intros w'.
  destruct (handle_callback_stop w task_id) as (Hj & Ht & Ho & Hr & _ & Hb).
  fold w' in Hj, Ht, Ho, Hr, Hb. split_and!; try done.
  - intros id kind. rewrite Hj, lookup_delete_ne; [done|].
    intros E. symmetry in E. by eapply reminder_recurring_disjoint.
  - intros Hnone. by rewrite Hb, Hnone.
Qed.

Lemma prefix_true_app p s :
  String.prefix p s = true → ∃ r, s = p +:+ r.
Proof.
  revert s. induction p as [|a p IH]; intros s H.
  { by exists s. }
  destruct s as [|b s]; [done|]. cbn [String.prefix] in H.
  destruct (ascii_dec a b) as [->|]; [|done].
  destruct (IH s H) as (r & ->). by exists r.
Qed.

(** X3. A callback is handled by the first branch whose test it passes.
    Data starting with [complete_] always goes to the completion branch, so
    the branch for the data [complete_task] can never be taken: the
    Complete Task button is read as a request to complete the task with id
    [task].  Data matching neither prefix leaves the engine unchanged. *)
Theorem complete_task_branch_unreachable (data : string) (w : World) :
  callback_branch data ≠ BranchCompleteTask
  ∧ callback_branch "complete_task" = BranchComplete "task"
  ∧ handle_callback data w
    = match callback_branch data with
      | BranchComplete task_id => handle_callback ("complete_" +:+ task_id) w
      | BranchStopReminders task_id =>
          handle_callback ("stop_reminders_" +:+ task_id) w
      | _ => w
      end.
Proof.
  split_and!.
  - unfold callback_branch.
    destruct (String.prefix "complete_" data) eqn:Hc; [done|].
    destruct (String.prefix "stop_reminders_" data); [done|].
    destruct (decide (data = "add_task")); [done|].
    destruct (decide (data = "complete_task")) as [->|]; [|done].
    vm_compute in Hc. discriminate.
  - reflexivity.
  - unfold callback_branch.
    destruct (String.prefix "complete_" data) eqn:Hc.
    { apply prefix_true_app in Hc as (r & ->).
      by rewrite after_underscore_complete. }
    destruct (String.prefix "stop_reminders_" data) eqn:Hs.
    { apply prefix_true_app in Hs as (r & ->).
      by rewrite after_underscore_stop. }
    unfold handle_callback. rewrite Hc, Hs.
    by repeat case_decide.
Qed.

(** ** What a reminder says *)







(** X6. When the task of a job no longer exists, a one-shot firing changes
    nothing, and a recurring firing sends nothing and removes its own job
    from the store. *)
Theorem firing_for_missing_task (w : World) (task_id : string) :
  tasks w !! task_id = None →
  (∀ reminder_type, send_reminder task_id reminder_type w = w)
  ∧ outbox (send_recurring_reminder task_id w) = outbox w
  ∧ jobs (send_recurring_reminder task_id w)
    = delete (recurring_job_id task_id) (jobs w)
  ∧ tasks (send_recurring_reminder task_id w) = tasks w.
Proof.
  intros Hnone. unfold send_reminder, send_recurring_reminder.
  rewrite Hnone.
  destruct (stop_recurring_effect task_id w) as (Hj & Ht & _ & Ho & _).
  by split_and!.
Qed.

Lemma firing_for_missing_task_witness :
  jobs (send_recurring_reminder task2 scheduled_world)
  = delete (recurring_job_id task2) (jobs scheduled_world).
Proof.
  exact (proj1 (proj2 (proj2
    (firing_for_missing_task scheduled_world task2 eq_refl)))).
Defined.

(** X7. The recurring reminder of a task that is not completed sends one
    notification per tick and stays installed; its [k]-th tick after the
    start, on time, reports the task overdue by [5 * (k + 1)] minutes, under
    the urgent heading for urgent tasks and the high-priority heading for
    all others, with both buttons. *)
Theorem recurring_tick_message
    (w : World) (task_id : string) (t : Task) (d : Z) (k : nat) :
  tasks w !! task_id = Some t →
  status t ≠ completed →
  due_time t = Some d →
  now w = d + timedelta 5 + Z.of_nat k * timedelta 5 →
  let w' := send_recurring_reminder task_id w in
  outbox w'
  = (outbox w ++
     [mkNotification task_id
        (if decide (priority t = "urgent") then UrgentStillPending
         else HighStillPending)
        (get_priority_emoji (priority t)) (title t) (description t)
        (OverdueBy (5 * (Z.of_nat k + 1)))
        ["complete_" +:+ task_id; "stop_reminders_" +:+ task_id]])%list
  ∧ jobs w' = jobs w ∧ tasks w' = tasks w ∧ reminders w' = reminders w.
Proof.
  intros Ht Hs Hd Hnow w'. unfold w'.
  rewrite (send_recurring_outbox w task_id t d Ht Hs Hd). world_simpl.
  split_and!; try done.
  rewrite Hnow.
  replace (d + timedelta 5 + Z.of_nat k * timedelta 5 - d)
    with (5 * (Z.of_nat k + 1) * 60000000) by (unfold timedelta; lia).
  unfold whole_minutes. by rewrite Z.quot_mul by lia.
Qed.

Lemma recurring_tick_message_witness :
  n_due <$> last (outbox (send_recurring_reminder task1
                            (with_now 6900000000 scheduled_world)))
  = Some (OverdueBy 15).
Proof.
  rewrite (proj1 (recurring_tick_message
                    (with_now 6900000000 scheduled_world) task1
                    (mkTask "file the report" "" (Some 6000000000) "urgent"
                       pending 0 0 false None)
                    6000000000 2 eq_refl ltac:(discriminate) eq_refl
                    eq_refl)).
  reflexivity.
Defined.

(** X8. Stopping the recurring reminders of a task twice is the same as
    stopping them once, and stopping them when no recurring job is
    installed changes nothing: the missing job is not an error. *)
Theorem stop_recurring_reminders_idempotent (w : World) (task_id : string) :
  stop_recurring_reminders task_id (stop_recurring_reminders task_id w)
  = stop_recurring_reminders task_id w
  ∧ (jobs w !! recurring_job_id task_id = None →
     stop_recurring_reminders task_id w = w)
  ∧ jobs (stop_recurring_reminders task_id w) !! recurring_job_id task_id
    = None.
Proof.
  assert (∀ w0, jobs w0 !! recurring_job_id task_id = None →
                stop_recurring_reminders task_id w0 = w0) as Habs.
  { intros w0 H0. unfold stop_recurring_reminders, remove_job.
    by rewrite H0. }
  assert (jobs (stop_recurring_reminders task_id w)
            !! recurring_job_id task_id = None) as Hgone.
  { destruct (stop_recurring_effect task_id w) as (-> & _).
    apply lookup_delete_eq. }
  split_and!; [by apply Habs | apply Habs | done].
Qed.

(** ** Job identities across tasks *)

Lemma underscore_split a b k k' :
  no_underscore a = true → no_underscore b = true →
  a +:+ "_" +:+ k = b +:+ "_" +:+ k' → a = b ∧ k = k'.
Proof.
  revert b. induction a as [|c a IH]; intros b Ha Hb E.
  - destruct b as [|c' b]; string_norm.
    + by injection E as ->.
    + injection E as <- _. cbn [no_underscore] in Hb.
      by rewrite Ascii.eqb_refl in Hb.
  - destruct b as [|c' b]; string_norm.
    + injection E as -> _. cbn [no_underscore] in Ha.
      by rewrite Ascii.eqb_refl in Ha.
    + injection E as -> E. cbn [no_underscore] in Ha, Hb.
      apply andb_true_iff in Ha as [_ Ha].
      apply andb_true_iff in Hb as [_ Hb].
      destruct (IH b Ha Hb E) as [-> ->]. done.
Qed.

Lemma spec_id_inj a b js js' :
  no_underscore a = true → no_underscore b = true →
  spec_id a js = spec_id b js' → a = b.
Proof.
  intros Ha Hb E. destruct js, js'; cbn [spec_id] in E.
  - unfold reminder_job_id in E. apply String.app_inj in E.
    by destruct (underscore_split _ _ _ _ Ha Hb E).
  - by apply reminder_recurring_disjoint in E.
  - symmetry in E. by apply reminder_recurring_disjoint in E.
  - by apply recurring_job_id_inj in E.
Qed.

(** X9. For task ids without an underscore, as printed UUIDs are, a job id
    determines its task and its reminder kind, and a reminder id is never a
    recurring id.  Hence scheduling one task leaves every job of every
    other task exactly as it was. *)
Theorem job_ids_separate_tasks
    (a b : string) (t : Task) (w : World) :
  no_underscore a = true →
  no_underscore b = true →
  (∀ k k', reminder_job_id a k = reminder_job_id b k' → a = b ∧ k = k')
  ∧ (recurring_job_id a = recurring_job_id b → a = b)
  ∧ (∀ k, reminder_job_id a k ≠ recurring_job_id b)
  ∧ (a ≠ b →
     ∀ js, jobs (schedule_reminder b t w) !! spec_id a js
           = jobs w !! spec_id a js).
Proof.
  intros Ha Hb. split_and!.
  - intros k k' E. unfold reminder_job_id in E.
    apply String.app_inj in E. by apply underscore_split.
  - apply recurring_job_id_inj.
  - intros k. apply reminder_recurring_disjoint.
  - intros Hne js. destruct (due_time t) as [d|] eqn:Hd.
    2: { unfold schedule_reminder. by rewrite Hd. }
    destruct (schedule_reminder_plan b t d w Hd) as [-> _].
    apply install_if_future_other.
    intros (js' & E & _)%list_elem_of_fmap.
    by apply spec_id_inj in E.
Qed.

Lemma job_ids_separate_tasks_witness :
  jobs (schedule_reminder task2 urgent_task scheduled_world)
    !! reminder_job_id task1 "urgent_30min"
  = jobs scheduled_world !! reminder_job_id task1 "urgent_30min".
Proof.
  exact (proj2 (proj2 (proj2
    (job_ids_separate_tasks task1 task2 urgent_task scheduled_world
       eq_refl eq_refl)))
    ltac:(discriminate)
    (OneShot "urgent_30min" 0)).
Defined.

(** ** The sweep and [Task.is_overdue] *)

Lemma filter_none {A} (P : A → Prop) `{!∀ x, Decision (P x)} (l : list A) :
  (∀ x, x ∈ l → ¬ P x) → filter P l = [].
Proof.
  induction l as [|a l IH]; intros Hall; [done|].
  rewrite filter_cons. destruct (decide (P a)) as [Hp|_].
  - exfalso. eapply Hall; [apply list_elem_of_here|done].
  - apply IH. intros x Hx. apply Hall. by apply list_elem_of_further.
Qed.

Lemma is_overdue_row_is_overdue now0 k t :
  is_overdue_row now0 (k, t) = is_overdue now0 t.
Proof. reflexivity. Qed.

Lemma swept_not_overdue w k t' :
  tasks (check_overdue_tasks w) !! k = Some t' →
  is_overdue (now w) t' = false.
Proof.
  rewrite check_overdue_tasks_lookup.
  destruct (tasks w !! k) as [t|]; [|done].
  rewrite is_overdue_row_is_overdue.
  destruct (is_overdue (now w) t) eqn:Hov; intros [= <-]; [|done].
  unfold is_overdue. cbn [due_time status touch set_status].
  destruct (due_time t); [|done].
  by rewrite andb_false_r.
Qed.

(** X10. The sweep changes exactly the tasks for which [Task.is_overdue]
    holds, and after it the property holds for no stored task: a task whose
    status has become overdue no longer counts as [is_overdue]. *)
Theorem sweep_clears_is_overdue (w : World) (task_id : string) :
  (∀ t, tasks w !! task_id = Some t →
        (is_overdue (now w) t = true
         ↔ tasks (check_overdue_tasks w) !! task_id ≠ Some t))
  ∧ (∀ t', tasks (check_overdue_tasks w) !! task_id = Some t' →
           is_overdue (now w) t' = false)
  ∧ (∀ t now0, status t = overdue → is_overdue now0 t = false).
Proof.
  split_and!.
  - intros t Ht. rewrite check_overdue_tasks_lookup, Ht.
    rewrite is_overdue_row_is_overdue.
    destruct (is_overdue (now w) t) eqn:Hov.
    + split; [|done]. intros _ [= E].
      apply (f_equal status) in E. cbn [status touch set_status] in E.
      unfold is_overdue in Hov. destruct (due_time t); [|done].
      apply andb_true_iff in Hov as [_ Hp%bool_decide_eq_true].
      congruence.
    + split; [done|]. by intros [].
  - intros t'. apply swept_not_overdue.
  - intros t now0 Hs. unfold is_overdue. destruct (due_time t); [|done].
    rewrite (bool_decide_eq_false_2 (status t = pending)) by congruence.
    apply andb_false_r.
Qed.

(** X11. A second sweep at the same clock changes nothing: the sweep is
    idempotent on the whole state. *)
Theorem check_overdue_tasks_idempotent (w : World) :
  check_overdue_tasks (check_overdue_tasks w) = check_overdue_tasks w.
Proof.
  set (w1 := check_overdue_tasks w).
  destruct (check_overdue_tasks_frame w) as (_ & _ & _ & _ & Hn).
  fold w1 in Hn. unfold check_overdue_tasks at 1. rewrite Hn.
  rewrite filter_none; [done|].
  intros [k t'] Hin%elem_of_map_to_list.
  change (¬ Is_true (is_overdue (now w) t')).
  rewrite (swept_not_overdue w k t' Hin). by intros [].
Qed.

(** ** Runs of the engine *)

Lemma handle_callback_tasks data w :
  tasks (handle_callback data w) = tasks w
  ∨ ∃ task_id t,
      tasks w !! task_id = Some t
      ∧ tasks (handle_callback data w)
        = <[task_id := touch (now w) (set_status completed t)]> (tasks w).
Proof.
  unfold handle_callback.
  destruct (String.prefix "complete_" data) eqn:Hc.
  - apply prefix_true_app in Hc as (r & ->).
    rewrite after_underscore_complete.
    destruct (tasks w !! r) as [t|] eqn:Ht; [|by left].
    right. exists r, t. split; [done|].
    pose proof (handle_callback_complete w r t Ht) as (Htk & _).
    unfold handle_callback in Htk.
    by rewrite prefix_complete, after_underscore_complete, Ht in Htk.
  - destruct (String.prefix "stop_reminders_" data); [|by left].
    set (task_id := after_underscore (after_underscore data)).
    destruct (stop_recurring_effect task_id w) as (_ & Htk & _).
    destruct (tasks (stop_recurring_reminders task_id w) !! task_id);
      world_simpl; by left.
Qed.

Lemma create_task_tasks uuid ti de due prio mid w :
  let w' := create_task uuid ti de due prio mid w in
  (w' = w ∧ is_Some (tasks w !! uuid))
  ∨ (tasks w !! uuid = None
     ∧ tasks w'
       = <[uuid := mkTask ti de due prio pending (now w) (now w) false mid]>
           (tasks w)).
Proof.
  unfold create_task.
  destruct (tasks w !! uuid) as [t0|] eqn:Hfresh; [left; eauto|].
  right. split; [done|]. rewrite schedule_reminder_guarded. world_simpl.
  by destruct (schedule_reminder_frame uuid
                 (mkTask ti de due prio pending (now w) (now w) false mid)
                 (with_tasks
                    (<[uuid := mkTask ti de due prio pending (now w) (now w)
                                 false mid]> (tasks w)) w))
    as (-> & _).
Qed.

Lemma run_job_func_tasks f w k t :
  tasks w !! k = Some t →
  tasks (run_job_func f w) !! k = Some t
  ∨ tasks (run_job_func f w) !! k
    = Some (touch (now w) (set_status overdue t)).
Proof.
  intros Ht. destruct f as [task_id rt|task_id|]; cbn [run_job_func].
  - destruct (send_reminder_effect task_id rt w) as (-> & _). by left.
  - destruct (send_recurring_effect task_id w) as (-> & _). by left.
  - rewrite check_overdue_tasks_lookup, Ht.
    destruct (is_overdue_row _ _); [by right|by left].
Qed.

(** A stored row is only ever rewritten with a new status and stamp. *)
Lemma step_rows w e k t :
  tasks w !! k = Some t →
  tasks (step w e) !! k = Some t
  ∨ ∃ s, tasks (step w e) !! k = Some (touch (now w) (set_status s t)).
Proof.
  intros Ht. destruct e as [uuid ti de due prio mid|data|job_id|dt];
    cbn [step].
  - destruct (create_task_tasks uuid ti de due prio mid w)
      as [[-> _]|[Hnone ->]]; [by left|].
    left. rewrite lookup_insert_ne by congruence. done.
  - destruct (handle_callback_tasks data w)
      as [->|(task_id & t0 & Ht0 & ->)]; [by left|].
    destruct (decide (task_id = k)) as [->|Hne].
    + right. exists completed. rewrite lookup_insert_eq. congruence.
    + left. by rewrite lookup_insert_ne.
  - unfold fire. destruct (jobs w !! job_id) as [j|]; [|by left].
    destruct (trigger j).
    + destruct (run_job_func_tasks (func j)
                  (with_jobs (delete job_id (jobs w)) w) k t Ht)
        as [H|H]; [by left | right; by exists overdue].
    + destruct (run_job_func_tasks (func j) w k t Ht)
        as [H|H]; [by left | right; by exists overdue].
  - by left.
Qed.

Lemma same_task_data_refl t : same_task_data t t.
Proof. by repeat split. Qed.

Lemma same_task_data_touch t s u :
  same_task_data t (touch u (set_status s t)).
Proof. by repeat split. Qed.

Lemma same_task_data_trans t1 t2 t3 :
  same_task_data t1 t2 → same_task_data t2 t3 → same_task_data t1 t3.
Proof.
  unfold same_task_data. intros (?&?&?&?&?&?&?) (?&?&?&?&?&?&?).
  split_and!; congruence.
Qed.

Lemma step_keeps_data w e k t :
  tasks w !! k = Some t →
  ∃ t', tasks (step w e) !! k = Some t' ∧ same_task_data t t'.
Proof.
  intros Ht. destruct (step_rows w e k t Ht) as [H|[s H]].
  - exists t. split; [done|apply same_task_data_refl].
  - eexists. split; [done|apply same_task_data_touch].
Qed.

(** X12. No event of the engine rewrites the title, the description, the
    due time, the priority, the creation time, the reminder-sent flag or
    the message id of a stored task, and no event deletes a task: along
    every run only the status and the update stamp of a row change. *)
Theorem task_data_never_changes
    (w : World) (es : list Event) (task_id : string) (t : Task) :
  tasks w !! task_id = Some t →
  ∃ t', tasks (run es w) !! task_id = Some t' ∧ same_task_data t t'.
Proof.
  revert w t. induction es as [|e es IH]; intros w t Ht.
  { exists t. split; [done|apply same_task_data_refl]. }
  rewrite run_cons.
  destruct (step_keeps_data w e task_id t Ht) as (t1 & Ht1 & Hd1).
  destruct (IH (step w e) t1 Ht1) as (t2 & Ht2 & Hd2).
  exists t2. split; [done|]. by eapply same_task_data_trans.
Qed.

Lemma task_data_never_changes_witness :
  ∃ t', tasks (run [ClockAdvanced 6100000000; TimerFired "check_overdue";
                    CallbackQuery ("complete_" +:+ task1)]
                 scheduled_world) !! task1 = Some t'
        ∧ due_time t' = Some 6000000000 ∧ priority t' = "urgent".
Proof.
  destruct (task_data_never_changes scheduled_world
              [ClockAdvanced 6100000000; TimerFired "check_overdue";
               CallbackQuery ("complete_" +:+ task1)] task1
              (mkTask "file the report" "" (Some 6000000000) "urgent"
                 pending 0 0 false None)
              eq_refl) as (t' & Ht' & _ & _ & Hd & Hp & _).
  exists t'. split; [exact Ht'|]. split; [exact Hd|exact Hp].
Defined.

Lemma create_task_jobs uuid ti de due prio mid w k j :
  jobs (create_task uuid ti de due prio mid w) !! k = Some j →
  jobs w !! k = Some j
  ∨ (tasks w !! uuid = None
     ∧ ∃ d js, due = Some d ∧ js ∈ reminder_plan prio d
               ∧ k = spec_id uuid js ∧ j = spec_job uuid js).
Proof.
  unfold create_task.
  destruct (tasks w !! uuid) as [t0|] eqn:Hfresh; [by left|].
  rewrite schedule_reminder_guarded. world_simpl.
  set (task := mkTask ti de due prio pending (now w) (now w) false mid).
  destruct due as [d|].
  2: { unfold schedule_reminder. cbn [due_time task]. by left. }
  destruct (schedule_reminder_plan uuid task d
              (with_tasks (<[uuid := task]> (tasks w)) w) eq_refl)
    as [-> _].
  world_simpl. cbn [priority task].
  destruct (decide (k ∈ spec_id uuid <$> reminder_plan prio d))
    as [Hin|Hout].
  - apply list_elem_of_fmap in Hin as (js & -> & Hjs).
    rewrite install_if_future_lookup by (apply plan_ids_NoDup || done).
    destruct (bool_decide _); [|by left].
    intros [= <-]. right. split; [done|]. by exists d, js.
  - rewrite install_if_future_other by done. by left.
Qed.

Lemma create_task_reminders uuid ti de due prio mid w :
  ∃ new, reminders (create_task uuid ti de due prio mid w)
         = (reminders w ++ new)%list
         ∧ Forall (fun r => is_sent r = false ∧ reminder_task r = uuid) new.
Proof.
  unfold create_task.
  destruct (tasks w !! uuid) as [t0|] eqn:Hfresh.
  { exists []. by rewrite app_nil_r. }
  rewrite schedule_reminder_guarded. world_simpl.
  set (task := mkTask ti de due prio pending (now w) (now w) false mid).
  destruct due as [d|].
  2: { exists []. rewrite app_nil_r. unfold schedule_reminder.
       cbn [due_time task]. done. }
  destruct (schedule_reminder_plan uuid task d
              (with_tasks (<[uuid := task]> (tasks w)) w) eq_refl)
    as [_ ->].
  world_simpl. eexists. split; [done|].
  apply Forall_fmap, Forall_forall. by intros js _.
Qed.

Lemma step_reminders w e :
  ∃ new, reminders (step w e) = (reminders w ++ new)%list
         ∧ Forall (fun r => is_sent r = false) new.
Proof.
  destruct e as [uuid ti de due prio mid|data|job_id|dt]; cbn [step].
  - destruct (create_task_reminders uuid ti de due prio mid w)
      as (new & -> & Hnew).
    exists new. split; [done|].
    eapply Forall_impl; [exact Hnew|]. by intros r [? _].
  - destruct (handle_callback_effect data w) as (_ & -> & _).
    exists []. by rewrite app_nil_r.
  - destruct (fire_effect job_id w) as (-> & _).
    exists []. by rewrite app_nil_r.
  - exists []. by rewrite app_nil_r.
Qed.

(** X13. Reminder records are append-only along every run of the engine:
    the records present at the start stay in place, unchanged, and every
    record added later is unsent.  No event ever marks a record as
    sent. *)
Theorem reminder_records_append_only (w : World) (es : list Event) :
  ∃ new, reminders (run es w) = (reminders w ++ new)%list
         ∧ Forall (fun r => is_sent r = false) new.
Proof.
  revert w. induction es as [|e es IH]; intros w.
  { exists []. by rewrite app_nil_r. }
  rewrite run_cons.
  destruct (step_reminders w e) as (new1 & E1 & H1).
  destruct (IH (step w e)) as (new2 & -> & H2).
  exists (new1 ++ new2)%list. rewrite E1, <- app_assoc.
  split; [done|]. by apply Forall_app.
Qed.

Lemma step_jobs w e k j :
  jobs (step w e) !! k = Some j →
  jobs w !! k = Some j
  ∨ ∃ uuid ti de d prio mid js,
      e = TaskCreated uuid ti de (Some d) prio mid
      ∧ tasks w !! uuid = None ∧ js ∈ reminder_plan prio d
      ∧ k = spec_id uuid js ∧ j = spec_job uuid js.
Proof.
  destruct e as [uuid ti de due prio mid|data|job_id|dt]; cbn [step].
  - intros [Hold|(Hnone & d & js & -> & Hjs & -> & ->)]%create_task_jobs;
      [by left|].
    right. by exists uuid, ti, de, d, prio, mid, js.
  - destruct (handle_callback_effect data w) as (_ & _ & _ & Hsh & _).
    intros H. left. by apply Hsh.
  - destruct (fire_effect job_id w) as (_ & _ & Hsh & _).
    intros H. left. by apply Hsh.
  - by left.
Qed.

Lemma job_wf_step w e k j :
  job_wf (tasks w) k j → job_wf (tasks (step w e)) k j.
Proof.
  intros [Hsweep|(task_id & t & d & js & Ht & Hd & Hjs & Hk & Hj)];
    [by left|].
  right.
  destruct (step_keeps_data w e task_id t Ht)
    as (t' & Ht' & _ & _ & Hd' & Hp' & _).
  exists task_id, t', d, js. rewrite Hd', Hp'. done.
Qed.

Lemma engine_inv_step w e : engine_inv w → engine_inv (step w e).
Proof.
  intros Hinv k j Hk.
  destruct (step_jobs w e k j Hk)
    as [Hold|(uuid & ti & de & d & prio & mid & js & -> & Hnone & Hjs
              & -> & ->)].
  - by apply job_wf_step, Hinv.
  - right. cbn [step].
    destruct (create_task_tasks uuid ti de (Some d) prio mid w)
      as [[_ [? Hsome]]|[_ Htasks]]; [congruence|].
    eexists uuid, _, d, js. rewrite Htasks, lookup_insert_eq.
    split_and!; done.
Qed.

Lemma engine_inv_initial t0 : engine_inv (initial_world t0).
Proof.
  intros k j Hk. left. cbn [jobs initial_world] in Hk.
  apply lookup_singleton_Some in Hk as [<- <-]. done.
Qed.

Lemma engine_inv_run es w : engine_inv w → engine_inv (run es w).
Proof.
  revert w. induction es as [|e es IH]; intros w Hinv; [done|].
  rewrite run_cons. by apply IH, engine_inv_step.
Qed.



Lemma recurring_in_plan prio d s e :
  Recurring s e ∈ reminder_plan prio d → prio ∈ ["high"; "urgent"].
Proof.
  unfold reminder_plan.
  destruct (decide (prio = "urgent")) as [->|];
    [intros _; set_solver|].
  destruct (decide (prio = "high")) as [->|]; [intros _; set_solver|].
  intros [E|Hin]%elem_of_cons; [discriminate E|].
  by apply elem_of_nil in Hin.
Qed.

Lemma job_wf_recurring ts k j task_id :
  job_wf ts k j → func j = send_recurring_reminder_job task_id →
  k = recurring_job_id task_id
  ∧ ∃ t, ts !! task_id = Some t ∧ priority t ∈ ["high"; "urgent"]
         ∧ is_Some (due_time t).
Proof.
  intros [[_ Hf]|(id & t & d & js & Ht & Hd & Hjs & -> & ->)] Hfunc;
    [congruence|].
  destruct js as [kind ft|s e]; cbn [spec_job func] in Hfunc; [done|].
  injection Hfunc as ->. split; [done|].
  exists t. split_and!; [done | by eapply recurring_in_plan | by eexists].
Qed.

Lemma job_wf_one_shot ts k j task_id kind :
  job_wf ts k j → func j = send_reminder_job task_id kind →
  k = reminder_job_id task_id kind
  ∧ (∃ ft, trigger j = DateTrigger ft)
  ∧ ∃ t, ts !! task_id = Some t ∧ is_Some (due_time t).
Proof.
  intros [[_ Hf]|(id & t & d & js & Ht & Hd & Hjs & -> & ->)] Hfunc;
    [congruence|].
  destruct js as [kind' ft|s e]; cbn [spec_job func] in Hfunc; [|done].
  injection Hfunc as -> ->. split_and!; [done | by eexists |].
  exists t. split; [done | by eexists].
Qed.

(** X15. In every world the engine can reach from its start, the complete
    callback on a stored task leaves no recurring job of that task in the
    store, whatever the priority of the task: the recurring job exists only
    for the priorities for which the callback removes it. *)
Theorem completion_leaves_no_recurring_job
    (t0 : Z) (es : list Event) (task_id : string) (t : Task)
    (k : string) (j : Job) :
  tasks (run es (initial_world t0)) !! task_id = Some t →
  jobs (handle_callback ("complete_" +:+ task_id)
          (run es (initial_world t0))) !! k = Some j →
  func j ≠ send_recurring_reminder_job task_id.
Proof.
  set (w := run es (initial_world t0)). intros Ht Hk Hf.
  pose proof (engine_inv_run es _ (engine_inv_initial t0)) as Hinv.
  fold w in Hinv.
  destruct (handle_callback_complete w task_id t Ht) as (_ & Hj & _).
  rewrite Hj in Hk.
  assert (jobs w !! k = Some j) as Hold.
  { destruct (bool_decide _); [|done].
    by apply lookup_delete_Some in Hk as [_ ?]. }
  destruct (job_wf_recurring _ _ _ _ (Hinv k j Hold) Hf)
    as (-> & t' & Ht' & Hp & _).
  assert (t' = t) as -> by congruence.
  rewrite bool_decide_eq_true_2 in Hk by done.
  by rewrite lookup_delete_eq in Hk.
Qed.

Lemma completion_leaves_no_recurring_job_witness :
  func (mkJob (send_reminder_job task1 "urgent_5min")
          (DateTrigger 5700000000))
  ≠ send_recurring_reminder_job task1.
Proof.
  apply (completion_leaves_no_recurring_job 0
           [TaskCreated task1 "file the report" "" (Some 6000000000)
              "urgent" None]
           task1
           (mkTask "file the report" "" (Some 6000000000) "urgent" pending
              0 0 false None)
           (reminder_job_id task1 "urgent_5min")).
  - vm_compute. reflexivity.
  - vm_compute. reflexivity.
Defined.

(** X16. In every world the engine can reach from its start, the firing of
    a reminder job always finds its task and the task's due time: it sends
    exactly one notification about that task when the task is not
    completed, and none when it is. *)
Theorem reminder_firing_sends_once
    (t0 : Z) (es : list Event) (k : string) (j : Job) :
  jobs (run es (initial_world t0)) !! k = Some j →
  func j ≠ check_overdue_tasks_job →
  let w := run es (initial_world t0) in
  ∃ task_id t,
    tasks w !! task_id = Some t
    ∧ (status t = completed → outbox (fire k w) = outbox w)
    ∧ (status t ≠ completed →
       ∃ n, outbox (fire k w) = (outbox w ++ [n])%list
            ∧ n_task n = task_id).
Proof.
  intros Hk Hns w.
  pose proof (engine_inv_run es _ (engine_inv_initial t0)) as Hinv.
  fold w in Hinv, Hk.
  destruct (Hinv k j Hk)
    as [[_ Hf]|(task_id & t & d & js & Ht & Hd & Hjs & -> & ->)];
    [done|].
  exists task_id, t. split; [done|]. unfold fire. rewrite Hk.
  destruct js as [kind ft|s e]; cbn [spec_job func trigger run_job_func].
  - set (w1 := with_jobs (delete (spec_id task_id (OneShot kind ft))
                            (jobs w)) w).
    split.
    + intros Hs. by erewrite send_reminder_completed by done.
    + intros Hs.
      destruct (send_reminder_outbox w1 task_id kind t d Ht Hs Hd)
        as (-> & _).
      by eexists.
  - split.
    + intros Hs. erewrite send_recurring_completed by done.
      by destruct (stop_recurring_effect task_id w)
        as (_ & _ & _ & -> & _).
    + intros Hs. rewrite (send_recurring_outbox w task_id t d Ht Hs Hd).
      by eexists.
Qed.

Lemma reminder_firing_sends_once_witness :
  let w := run [TaskCreated task1 "file the report" "" (Some 6000000000)
                  "urgent" None] (initial_world 0) in
  ∃ task_id t,
    tasks w !! task_id = Some t
    ∧ (status t = completed →
       outbox (fire (reminder_job_id task1 "urgent_5min") w) = outbox w)
    ∧ (status t ≠ completed →
       ∃ n, outbox (fire (reminder_job_id task1 "urgent_5min") w)
            = (outbox w ++ [n])%list
            ∧ n_task n = task_id).
Proof.
  apply (reminder_firing_sends_once 0
           [TaskCreated task1 "file the report" "" (Some 6000000000)
              "urgent" None]
           (reminder_job_id task1 "urgent_5min")
           (mkJob (send_reminder_job task1 "urgent_5min")
              (DateTrigger 5700000000))).
  - vm_compute. reflexivity.
  - discriminate.
Defined.

Lemma step_outbox w e :
  ∃ new, outbox (step w e) = (outbox w ++ new)%list
         ∧ (length new ≤ if is_timer_event e then 1 else 0)%nat.
Proof.
  destruct e as [uuid ti de due prio mid|data|job_id|dt];
    cbn [step is_timer_event].
  - destruct (create_task_effect uuid ti de due prio mid w) as (-> & _).
    exists []. by rewrite app_nil_r.
  - destruct (handle_callback_effect data w) as (-> & _).
    exists []. by rewrite app_nil_r.
  - destruct (fire_effect job_id w)
      as (_ & _ & _ & _ & [->|(n & t & -> & _)]).
    + exists []. rewrite app_nil_r. split; [done|]. cbn. lia.
    + exists [n]. done.
  - exists []. by rewrite app_nil_r.
Qed.

(** X17. Only timer firings send: task creation, callbacks and the passing
    of time never add to the notification channel, each firing adds at most
    one notification, and nothing already sent is ever changed.  So a run
    adds at most as many notifications as it has timer events. *)
Theorem notifications_bounded_by_firings (w : World) (es : list Event) :
  ∃ new, outbox (run es w) = (outbox w ++ new)%list
         ∧ (length new ≤ timer_events es)%nat.
Proof.
  revert w. induction es as [|e es IH]; intros w.
  { exists []. rewrite app_nil_r. split; [done|]. cbn. lia. }
  rewrite run_cons.
  destruct (step_outbox w e) as (new1 & E1 & H1).
  destruct (IH (step w e)) as (new2 & -> & H2).
  exists (new1 ++ new2)%list. rewrite E1, <- app_assoc.
  split; [done|]. rewrite length_app. unfold timer_events in *.
  cbn [List.filter]. destruct (is_timer_event e); cbn [length]; lia.
Qed.

(** *** One-shot jobs run once *)

Lemma task_stays w e task_id :
  is_Some (tasks w !! task_id) → is_Some (tasks (step w e) !! task_id).
Proof.
  intros [t Ht]. destruct (step_keeps_data w e task_id t Ht) as (t' & -> & _).
  by eexists.
Qed.

Lemma one_shot_absent_step w e task_id kind :
  is_Some (tasks w !! task_id) →
  (∀ k j, jobs w !! k = Some j → func j ≠ send_reminder_job task_id kind) →
  ∀ k j, jobs (step w e) !! k = Some j →
         func j ≠ send_reminder_job task_id kind.
Proof.
  intros [t Ht] Habs k j Hk.
  destruct (step_jobs w e k j Hk)
    as [Hold|(uuid & ti & de & d & prio & mid & js & -> & Hnone & Hjs
              & -> & ->)]; [by eapply Habs|].
  destruct js; cbn [spec_job func]; [|done].
  intros [= -> ->]. congruence.
Qed.

Lemma one_shot_fire_absent w i j task_id kind :
  engine_inv w → jobs w !! i = Some j →
  func j = send_reminder_job task_id kind →
  ∀ k j', jobs (fire i w) !! k = Some j' →
          func j' ≠ send_reminder_job task_id kind.
Proof.
  intros Hinv Hi Hf k j' Hk Hf'.
  destruct (job_wf_one_shot _ _ _ _ _ (Hinv i j Hi) Hf)
    as (-> & (ft & Htr) & _).
  unfold fire in Hk. rewrite Hi, Htr, Hf in Hk. cbn [run_job_func] in Hk.
  destruct (send_reminder_effect task_id kind
              (with_jobs (delete (reminder_job_id task_id kind) (jobs w)) w))
    as (_ & Hj & _).
  rewrite Hj in Hk. world_simpl.
  apply lookup_delete_Some in Hk as [Hne Hold].
  by destruct (job_wf_one_shot _ _ _ _ _ (Hinv k j' Hold) Hf') as (-> & _).
Qed.

Lemma runs_of_absent es w task_id kind :
  is_Some (tasks w !! task_id) →
  (∀ k j, jobs w !! k = Some j → func j ≠ send_reminder_job task_id kind) →
  runs_of (send_reminder_job task_id kind) es w = 0%nat.
Proof.
  revert w. induction es as [|e es IH]; intros w Ht Habs; [done|].
  cbn [runs_of].
  rewrite IH by (by apply task_stays || by apply one_shot_absent_step).
  destruct e as [| |i|]; try done.
  destruct (jobs w !! i) as [j|] eqn:Hi; [|done].
  destruct (decide _) as [Hf|]; [|done]. by apply Habs in Hi.
Qed.

Lemma runs_of_stored es w task_id kind :
  engine_inv w → is_Some (tasks w !! task_id) →
  (runs_of (send_reminder_job task_id kind) es w ≤ 1)%nat.
Proof.
  revert w. induction es as [|e es IH]; intros w Hinv Ht; [cbn; lia|].
  cbn [runs_of].
  pose proof (IH (step w e) (engine_inv_step w e Hinv)
                (task_stays w e task_id Ht)) as Hle.
  destruct e as [| |i|]; try (cbn [Nat.add]; exact Hle).
  destruct (jobs w !! i) as [j|] eqn:Hi; [|cbn [Nat.add]; exact Hle].
  destruct (decide _) as [Hf|]; [|cbn [Nat.add]; exact Hle].
  rewrite runs_of_absent; [lia | by apply task_stays |].
  cbn [step]. by eapply one_shot_fire_absent.
Qed.

(** X18. Over the whole life of the engine each one-shot reminder runs at
    most once: a one-shot job leaves the store when it fires, and the job
    of a stored task is never installed again. *)
Theorem one_shot_runs_at_most_once
    (t0 : Z) (es : list Event) (task_id kind : string) :
  (runs_of (send_reminder_job task_id kind) es (initial_world t0) ≤ 1)%nat.
Proof.
  pose proof (engine_inv_initial t0) as Hinv.
  generalize dependent (initial_world t0). intros w Hinv. revert w Hinv.
  induction es as [|e es IH]; intros w Hinv; [cbn; lia|].
  destruct (tasks w !! task_id) as [t|] eqn:Ht.
  { apply runs_of_stored; [done|by eexists]. }
  cbn [runs_of].
  pose proof (IH (step w e) (engine_inv_step w e Hinv)) as Hle.
  destruct e as [| |i|]; try (cbn [Nat.add]; exact Hle).
  destruct (jobs w !! i) as [j|] eqn:Hi; [|cbn [Nat.add]; exact Hle].
  destruct (decide _) as [Hf|]; [|cbn [Nat.add]; exact Hle].
  destruct (job_wf_one_shot _ _ _ _ _ (Hinv i j Hi) Hf)
    as (_ & _ & t & Ht' & _).
  congruence.
Qed.

(** ** Conversation memory *)

Lemma last_n_length {A} n (l : list A) :
  length (last_n n l) = Nat.min (length l) n.
Proof. unfold last_n. rewrite length_drop. lia. Qed.

Lemma last_n_snoc2 {A} n (l : list A) x y :
  (2 ≤ n)%nat →
  last_n n (l ++ [x; y]) = (drop (length l + 2 - n) l ++ [x; y])%list.
Proof.
  intros Hn. unfold last_n. rewrite length_app. cbn [length].
  rewrite drop_app_le by lia. done.
Qed.

Lemma alternating_pairs l :
  alternating l = true → ∃ k, length l = (2 * k)%nat.
Proof.
  remember (length l) as n eqn:Hn. revert l Hn.
  induction n as [n IH] using lt_wf_ind. intros l Hn Halt.
  destruct l as [|u [|a l2]]; [by exists 0%nat | done |].
  cbn [alternating] in Halt. apply andb_true_iff in Halt as [_ Halt].
  cbn [length] in Hn.
  destruct (IH (length l2) ltac:(lia) l2 eq_refl Halt) as (k & Hk).
  exists (S k). lia.
Qed.

Lemma alternating_drop l k :
  alternating l = true → alternating (drop (2 * k) l) = true.
Proof.
  revert l. induction k as [|k IH]; intros l Halt; [done|].
  destruct l as [|u [|a l2]]; [done | done |].
  cbn [alternating] in Halt. apply andb_true_iff in Halt as [_ Halt].
  replace (2 * S k)%nat with (S (S (2 * k))) by lia. cbn [drop].
  by apply IH.
Qed.

Lemma alternating_snoc2 l u a :
  alternating l = true →
  alternating (l ++ [mkChatMessage "user" u; mkChatMessage "assistant" a])
  = true.
Proof.
  remember (length l) as n eqn:Hn. revert l Hn.
  induction n as [n IH] using lt_wf_ind. intros l Hn Halt.
  destruct l as [|x [|y l2]]; [done | done |].
  cbn [alternating] in Halt. apply andb_true_iff in Halt as [Hxy Halt].
  cbn [app alternating]. rewrite Hxy. cbn [andb].
  cbn [length] in Hn. by apply (IH (length l2) ltac:(lia)).
Qed.

Lemma alternating_last_n l n :
  alternating l = true → alternating (last_n (2 * n) l) = true.
Proof.
  intros Halt. destruct (alternating_pairs l Halt) as (k & Hk).
  unfold last_n. rewrite Hk.
  replace (2 * k - 2 * n)%nat with (2 * (k - n))%nat by lia.
  by apply alternating_drop.
Qed.

Lemma update_conversation_lookup user_id u a cs h :
  cs !! user_id = Some h →
  update_conversation_context user_id u a cs
  = <[user_id :=
        (drop (length h + 2 - 20) h ++
         [mkChatMessage "user" u; mkChatMessage "assistant" a])%list]> cs.
Proof.
  intros Hh. unfold update_conversation_context. rewrite Hh.
  rewrite length_app. cbn [length]. case_bool_decide.
  - by rewrite last_n_snoc2 by lia.
  - replace (length h + 2 - 20)%nat with 0%nat by lia. done.
Qed.

(** X19. Recording an exchange appends the user's message and the
    assistant's answer to the stored history and keeps the last twenty
    messages: the oldest ones are dropped from the front, the new exchange
    is always the end of the history, and no other session is touched.
    For a session without a stored row nothing is recorded. *)
Theorem update_conversation_keeps_last_twenty
    (user_id user_message bot_response : string)
    (cs : gmap string (list ChatMessage)) :
  let cs' :=
    update_conversation_context user_id user_message bot_response cs in
  (∀ h, cs !! user_id = Some h →
     cs' !! user_id
     = Some (drop (length h + 2 - 20) h ++
             [mkChatMessage "user" user_message;
              mkChatMessage "assistant" bot_response])%list
     ∧ ∀ h', cs' !! user_id = Some h' →
             length h' = Nat.min (length h + 2) 20)
  ∧ (cs !! user_id = None → cs' = cs)
  ∧ (∀ other, other ≠ user_id → cs' !! other = cs !! other).
Proof.
  intros cs'. unfold cs'. split_and!.
  - intros h Hh. rewrite (update_conversation_lookup _ _ _ _ h Hh).
    rewrite lookup_insert_eq. split; [done|].
    intros h' [= <-]. rewrite length_app, length_drop. cbn [length]. lia.
  - intros Hnone. unfold update_conversation_context. by rewrite Hnone.
  - intros other Hne. unfold update_conversation_context.
    destruct (cs !! user_id); [|done]. by rewrite lookup_insert_ne.
Qed.

Lemma converse_table complete system_prompt user_id msg cs :
  let h := default [] (cs !! user_id) in
  converse complete system_prompt user_id msg cs
  = (complete (build_messages system_prompt h msg),
     <[user_id :=
         (drop (length h + 2 - 20) h ++
          [mkChatMessage "user" msg;
           mkChatMessage "assistant"
             (complete (build_messages system_prompt h msg))])%list]> cs).
Proof.
  unfold converse, get_conversation_context.
  destruct (cs !! user_id) as [h|] eqn:Hh; cbn [default].
  - f_equal. by apply update_conversation_lookup.
  - f_equal.
    rewrite (update_conversation_lookup _ _ _ _ [])
      by apply lookup_insert_eq.
    apply insert_insert_eq.
Qed.

(** X20. A conversation that is stored as whole exchanges (user and
    assistant messages in turn, at most twenty) stays so after every
    message: the request sent to the language model is the system prompt,
    then at most the last ten stored messages, beginning with a user
    message and ending with an assistant message, then the new user
    message; and the exchange is stored at the end of the history. *)
Theorem conversation_holds_whole_exchanges
    (complete : list ChatMessage → string)
    (system_prompt user_id user_message : string)
    (cs : gmap string (list ChatMessage)) :
  (∀ u h, cs !! u = Some h → alternating h = true ∧ (length h ≤ 20)%nat) →
  let stored := default [] (cs !! user_id) in
  let prompt := build_messages system_prompt stored user_message in
  let result := converse complete system_prompt user_id user_message cs in
  (∀ u h, result.2 !! u = Some h →
          alternating h = true ∧ (length h ≤ 20)%nat)
  ∧ (∃ window,
       prompt = ([mkChatMessage "system" system_prompt] ++ window ++
                 [mkChatMessage "user" user_message])%list
       ∧ alternating window = true ∧ (length window ≤ 10)%nat
       ∧ window `suffix_of` stored)
  ∧ result.1 = complete prompt
  ∧ ∃ older,
      result.2 !! user_id
      = Some (older ++ [mkChatMessage "user" user_message;
                        mkChatMessage "assistant" (complete prompt)])%list.
Proof.
  intros Hinv stored prompt result.
  assert (alternating stored = true ∧ (length stored ≤ 20)%nat)
    as [Halt Hlen].
  { unfold stored. destruct (cs !! user_id) as [h|] eqn:Hh; cbn [default].
    - by apply (Hinv user_id).
    - split; [done|cbn; lia]. }
  unfold result. rewrite converse_table. fold stored. fold prompt.
  cbn [fst snd]. split_and!.
  - intros u h. destruct (decide (u = user_id)) as [->|Hne].
    + rewrite lookup_insert_eq. intros [= <-].
      destruct (alternating_pairs stored Halt) as (k & Hk).
      split.
      * apply alternating_snoc2. rewrite Hk.
        replace (2 * k + 2 - 20)%nat with (2 * (k + 1 - 10))%nat by lia.
        by apply alternating_drop.
      * rewrite length_app, length_drop. cbn [length]. lia.
    + rewrite lookup_insert_ne by done. apply Hinv.
  - exists (last_n 10 stored). split_and!.
    + done.
    + by apply (alternating_last_n stored 5).
    + rewrite last_n_length. lia.
    + exists (take (length stored - 10) stored). unfold last_n.
      by rewrite take_drop.
  - done.
  - eexists. by rewrite lookup_insert_eq.
Qed.

Lemma conversation_holds_whole_exchanges_witness :
  ∃ older,
    (converse (fun _ => "Noted.") "You are an assistant." "42" "hello"
       {["42" := [mkChatMessage "user" "hi";
                  mkChatMessage "assistant" "Hello!"]]}).2 !! "42"
    = Some (older ++ [mkChatMessage "user" "hello";
                      mkChatMessage "assistant" "Noted."])%list.
Proof.
  refine (proj2 (proj2 (proj2
    (conversation_holds_whole_exchanges (fun _ => "Noted.")
       "You are an assistant." "42" "hello"
       {["42" := [mkChatMessage "user" "hi";
                  mkChatMessage "assistant" "Hello!"]]} _)))).
  intros u h [_ <-]%lookup_singleton_Some. split; [reflexivity | simpl; lia].
Defined.

(** ** Task creation from parsed data *)

Lemma create_task_without_due uuid ti de prio mid w :
  tasks w !! uuid = None →
  let w' := create_task uuid ti de None prio mid w in
  tasks w'
  = <[uuid := mkTask ti de None prio pending (now w) (now w) false mid]>
      (tasks w)
  ∧ jobs w' = jobs w ∧ reminders w' = reminders w ∧ outbox w' = outbox w.
Proof.
  intros Hnone. unfold create_task. rewrite Hnone. by cbn [due_time].
Qed.

(** X21. A parsed task whose due time is missing, null, empty or rejected
    by the date parser is still created: it is stored as pending without
    due time, with an empty description and medium priority where those
    are missing, and it gets no reminder job and no Reminder record.  A
    parsed task without a title, or with a null title, description or
    priority, changes nothing. *)
Theorem parsed_task_with_unusable_due_time
    (fromisoformat : string → option Z) (uuid : string) (data : TaskData)
    (message_id : Z) (w : World) :
  tasks w !! uuid = None →
  let w' := create_task_from_parsed_data fromisoformat uuid data message_id
              w in
  (∀ title description priority,
     td_title data = JString title →
     get_or "" (td_description data) = Some description →
     get_or "medium" (td_priority data) = Some priority →
     (td_due_time data = JAbsent ∨ td_due_time data = JNull
      ∨ td_due_time data = JString ""
      ∨ ∃ s, td_due_time data = JString s
             ∧ fromisoformat (replace_Z s) = None) →
     tasks w'
     = <[uuid := mkTask title description None priority pending (now w)
                   (now w) false (Some message_id)]> (tasks w)
     ∧ jobs w' = jobs w ∧ reminders w' = reminders w
     ∧ outbox w' = outbox w)
  ∧ ((td_title data = JAbsent ∨ td_title data = JNull
      ∨ td_description data = JNull ∨ td_priority data = JNull) →
     w' = w).
Proof.
  intros Hnone w'. unfold w', create_task_from_parsed_data. split.
  - intros ti de pr -> -> -> Hdue.
    assert (parse_due_time fromisoformat (td_due_time data) = None) as ->.
    { destruct Hdue as [->|[->|[->|(s & -> & Hs)]]]; try done.
      cbn [parse_due_time]. by destruct (decide (s = "")). }
    by apply create_task_without_due.
  - intros [->|[->|[->| ->]]]; try done.
    + destruct (td_title data); done.
    + destruct (td_title data); [done..|].
      by destruct (get_or "" (td_description data)).
Qed.

Lemma parsed_task_with_unusable_due_time_witness :
  jobs (create_task_from_parsed_data (fun _ => None) task2
          (mkTaskData (JString "buy milk") JAbsent (JString "tomorrowish")
             JAbsent)
          7 scheduled_world)
  = jobs scheduled_world.
Proof.
  exact (proj1 (proj2
    (proj1 (parsed_task_with_unusable_due_time (fun _ => None) task2
              (mkTaskData (JString "buy milk") JAbsent
                 (JString "tomorrowish") JAbsent)
              7 scheduled_world eq_refl)
       "buy milk" "" "medium" eq_refl eq_refl eq_refl
       ltac:(right; right; right; by eexists)))).
Defined.

(** X22. A task created without due time, or five minutes or more after
    its due time, is stored but gets no job of any kind and no Reminder
    record, whatever its priority; for a priority other than urgent and
    high the same holds from fifteen minutes before the due time on. *)
Theorem late_task_gets_no_jobs
    (uuid ti de prio : string) (due : option Z) (mid : option Z)
    (w : World) :
  (due = None
   ∨ (∃ d, due = Some d ∧ d + timedelta 5 ≤ now w)
   ∨ (∃ d, due = Some d ∧ prio ≠ "urgent" ∧ prio ≠ "high"
           ∧ d - timedelta 15 ≤ now w)) →
  let w' := create_task uuid ti de due prio mid w in
  jobs w' = jobs w ∧ reminders w' = reminders w ∧ outbox w' = outbox w
  ∧ (tasks w !! uuid = None →
     tasks w' !! uuid
     = Some (mkTask ti de due prio pending (now w) (now w) false mid)).
Proof.
  intros Hlate w'. unfold w', create_task.
  destruct (tasks w !! uuid) as [t0|] eqn:Hfresh; [done|].
  rewrite schedule_reminder_guarded. world_simpl.
  set (task := mkTask ti de due prio pending (now w) (now w) false mid).
  set (w1 := with_tasks (<[uuid := task]> (tasks w)) w).
  destruct (schedule_reminder_frame uuid task w1) as (-> & -> & _).
  unfold w1 at 3 4. world_simpl. rewrite lookup_insert_eq.
  assert (jobs (schedule_reminder uuid task w1) = jobs w
          ∧ reminders (schedule_reminder uuid task w1) = reminders w)
    as [-> ->]; [|done].
  destruct due as [d|].
  2: { unfold schedule_reminder. by cbn [due_time task]. }
  destruct (schedule_reminder_plan uuid task d w1 eq_refl) as [-> ->].
  unfold w1. world_simpl. cbn [priority task].
  assert (∀ js, js ∈ reminder_plan prio d → ¬ now w < spec_time js)
    as Hpast.
  { intros js Hjs.
    destruct Hlate as [?|[(d' & [= <-] & Hle)|(d' & [= <-] & Hu & Hh & Hle)]];
      [done| |].
    - unfold reminder_plan in Hjs. unfold timedelta in *.
      repeat case_decide;
        repeat (apply elem_of_cons in Hjs as [->|Hjs];
                [cbn [spec_time]; lia|]);
        by apply elem_of_nil in Hjs.
    - unfold reminder_plan in Hjs. unfold timedelta in *.
      rewrite !decide_False in Hjs by done.
      apply list_elem_of_singleton in Hjs as ->. cbn [spec_time]. lia. }
  split.
  - apply map_eq. intros k.
    destruct (decide (k ∈ spec_id uuid <$> reminder_plan prio d))
      as [Hin|Hout].
    + apply list_elem_of_fmap in Hin as (js & -> & Hjs).
      rewrite install_if_future_lookup by (apply plan_ids_NoDup || done).
      by rewrite bool_decide_eq_false_2 by by apply Hpast.
    + by rewrite install_if_future_other.
  - assert (live_one_shots (now w) (reminder_plan prio d) = []) as ->;
      [|by rewrite app_nil_r].
    unfold live_one_shots.
    induction (reminder_plan prio d) as [|js l IH]; [done|].
    cbn [List.filter].
    rewrite (bool_decide_eq_false_2 (now w < spec_time js))
      by (apply Hpast, list_elem_of_here).
    rewrite andb_false_r. apply IH.
    intros js' Hjs'. apply Hpast. by apply list_elem_of_further.
Qed.

Lemma late_task_gets_no_jobs_witness :
  jobs (create_task task2 "water the plants" "" (Some 6000000000) "urgent"
          None (with_now 6300000000 scheduled_world))
  = jobs (with_now 6300000000 scheduled_world).
Proof.
  apply (late_task_gets_no_jobs task2 "water the plants" "" "urgent"
           (Some 6000000000) None (with_now 6300000000 scheduled_world)).
  right. left. exists 6000000000. split; [reflexivity|].
  vm_compute. discriminate.
Defined.

(** ** The completion list *)

Lemma pending_tasks_rows order w row :
  (∀ l, order l ≡ₚ l) →
  row ∈ pending_tasks order w →
  tasks w !! row.1 = Some row.2 ∧ status row.2 = pending.
Proof.
  intros Hperm Hin. unfold pending_tasks in Hin.
  apply (subseteq_take 10) in Hin. rewrite Hperm in Hin.
  apply list_elem_of_filter in Hin as [Hst Hin].
  split; [|done]. by apply elem_of_map_to_list'.
Qed.

Lemma pending_tasks_NoDup order w :
  (∀ l, order l ≡ₚ l) → NoDup (pending_tasks order w).*1.
Proof.
  intros Hperm. unfold pending_tasks.
  set (l := filter _ (map_to_list (tasks w))).
  apply (sublist_NoDup _ (order l).*1);
    [|apply fmap_sublist, sublist_take].
  rewrite Hperm.
  apply (sublist_NoDup _ (map_to_list (tasks w)).*1);
    [apply NoDup_fst_map_to_list|].
  apply fmap_sublist, sublist_filter.
Qed.

(** X23. The completion list offers at most ten buttons, one per listed
    task and no task twice; every button names a stored task that is
    pending, and pressing it completes that task.  This holds however the
    database orders the rows. *)
Theorem completion_list_buttons
    (order : list (string * Task) → list (string * Task)) (w : World) :
  (∀ l, order l ≡ₚ l) →
  (length (complete_task_keyboard order w) ≤ 10)%nat
  ∧ NoDup (complete_task_keyboard order w)
  ∧ ∀ b, b ∈ complete_task_keyboard order w →
         ∃ task_id t,
           b = "complete_" +:+ task_id
           ∧ tasks w !! task_id = Some t ∧ status t = pending
           ∧ tasks (handle_callback b w) !! task_id
             = Some (touch (now w) (set_status completed t)).
Proof.
  intros Hperm. unfold complete_task_keyboard. split_and!.
  - rewrite length_fmap. unfold pending_tasks. rewrite length_take. lia.
  - change (NoDup ((fun k => "complete_" +:+ k) ∘ fst
                    <$> pending_tasks order w)).
    rewrite (list_fmap_compose fst (fun k => "complete_" +:+ k)).
    apply NoDup_fmap_2; [apply String.app_inj|].
    by apply pending_tasks_NoDup.
  - intros b ([task_id t] & -> & Hin)%list_elem_of_fmap.
    destruct (pending_tasks_rows order w _ Hperm Hin) as [Ht Hs].
    cbn [fst snd] in *. exists task_id, t. split_and!; try done.
    destruct (handle_callback_complete w task_id t Ht) as (-> & _).
    apply lookup_insert_eq.
Qed.

Lemma completion_list_buttons_witness :
  (length (complete_task_keyboard (fun l => l) sweep_world) ≤ 10)%nat.
Proof.
  exact (proj1 (completion_list_buttons (fun l => l) sweep_world
                  ltac:(intros l; reflexivity))).
Defined.

(** X24. After a sweep, no task whose due time has passed is offered in the
    completion list any more: the list holds pending tasks only, and the
    sweep has moved those tasks to overdue. *)
Theorem swept_tasks_leave_completion_list
    (order : list (string * Task) → list (string * Task)) (w : World)
    (task_id : string) (t : Task) (d : Z) :
  (∀ l, order l ≡ₚ l) →
  (task_id, t) ∈ pending_tasks order (check_overdue_tasks w) →
  due_time t = Some d →
  now w ≤ d.
Proof.
  intros Hperm Hin Hd.
  destruct (pending_tasks_rows order _ _ Hperm Hin) as [Ht Hs].
  cbn [fst snd] in *.
  pose proof (swept_not_overdue w task_id t Ht) as Hov.
  unfold is_overdue in Hov. rewrite Hd in Hov.
  rewrite (bool_decide_eq_true_2 (status t = pending)) in Hov by done.
  rewrite andb_true_r in Hov. apply bool_decide_eq_false in Hov. lia.
Qed.

Lemma swept_tasks_leave_completion_list_witness : now sweep_world ≤ 900.
Proof.
  apply (swept_tasks_leave_completion_list (fun l => l) sweep_world task3
           (mkTask "later" "" (Some 900) "medium" pending 0 0 false None)
           900).
  - intros l. reflexivity.
  - vm_compute. set_solver.
  - reflexivity.
Defined.

(** X25. Pressing the complete button a second time, at any later clock,
    changes nothing but the update stamp of the task and the log: the task
    stays completed with its data as it was, the job store is the one the
    first press left, the Reminder records and the channel are untouched,
    and one more completion entry is logged. *)
Theorem completing_twice
    (w : World) (task_id : string) (t : Task) (later : Z) :
  tasks w !! task_id = Some t →
  let w1 := handle_callback ("complete_" +:+ task_id) w in
  let w2 := handle_callback ("complete_" +:+ task_id) (with_now later w1) in
  tasks w2 = <[task_id := touch later (set_status completed t)]> (tasks w)
  ∧ jobs w2 = jobs w1 ∧ outbox w2 = outbox w
  ∧ reminders w2 = reminders w
  ∧ botlog w2
    = (botlog w ++ [mkBotLog "task_completed" task_id (title t);
                    mkBotLog "task_completed" task_id (title t)])%list.
Proof.
  intros Ht w1 w2.
  destruct (handle_callback_complete w task_id t Ht)
    as (Htk & Hj & Ho & Hr & Hn & Hb).
  fold w1 in Htk, Hj, Ho, Hr, Hn, Hb.
  assert (tasks (with_now later w1) !! task_id
          = Some (touch (now w) (set_status completed t))) as Ht1.
  { cbn [tasks with_now]. rewrite Htk. apply lookup_insert_eq. }
  destruct (handle_callback_complete (with_now later w1) task_id _ Ht1)
    as (Htk2 & Hj2 & Ho2 & Hr2 & _ & Hb2).
  fold w2 in Htk2, Hj2, Ho2, Hr2, Hb2.
  cbn [tasks jobs outbox reminders botlog now with_now] in Htk2, Hj2, Ho2,
    Hr2, Hb2.
  rewrite Ho2, Hr2, Hb2, Ho, Hr, Hb, <- app_assoc. split_and!; try done.
  - rewrite Htk2, Htk. apply insert_insert_eq.
  - rewrite Hj2. cbn [priority touch set_status].
    destruct (bool_decide (priority t ∈ ["high"; "urgent"])); [|done].
    apply delete_id. rewrite Hj. apply lookup_delete_eq.
Qed.

Lemma completing_twice_witness :
  jobs (handle_callback ("complete_" +:+ task1)
          (with_now 4500000000
             (handle_callback ("complete_" +:+ task1) scheduled_world)))
  = jobs (handle_callback ("complete_" +:+ task1) scheduled_world).
Proof.
  exact (proj1 (proj2
    (completing_twice scheduled_world task1
       (mkTask "file the report" "" (Some 6000000000) "urgent" pending 0 0
          false None)
       4500000000 eq_refl))).
Defined.

(** ** User profiles *)

(** X26. Updating a profile never erases a field: a name or occupation
    that is missing or empty in the update leaves the stored one as it is,
    a non-empty one replaces it; the profile is created when the user has
    none, and no other user's profile is touched. *)
Theorem profile_update_never_erases
    (user_id : string) (name occupation : option string)
    (ps : gmap string UserProfile) :
  let old := default (mkUserProfile "" "") (ps !! user_id) in
  let ps' := update_user_profile user_id name occupation ps in
  ps' !! user_id
  = Some (mkUserProfile (default (profile_name old) (truthy name))
            (default (profile_occupation old) (truthy occupation)))
  ∧ (∀ p', ps' !! user_id = Some p' →
           (profile_name old ≠ "" → profile_name p' ≠ "")
           ∧ (profile_occupation old ≠ "" → profile_occupation p' ≠ ""))
  ∧ (∀ other, other ≠ user_id → ps' !! other = ps !! other).
Proof.
  intros old ps'.
  assert (ps' !! user_id
          = Some (mkUserProfile (default (profile_name old) (truthy name))
                    (default (profile_occupation old) (truthy occupation))))
    as Hnew.
  { unfold ps', old, update_user_profile, get_user_profile.
    destruct (ps !! user_id) as [[n o]|]; cbn [default];
      rewrite lookup_insert_eq;
      by destruct (truthy name), (truthy occupation). }
  split_and!.
  - exact Hnew.
  - intros p'. rewrite Hnew. intros [= <-].
    cbn [profile_name profile_occupation].
    unfold truthy. split; intros Hold.
    + destruct name as [s|]; [|done]. by destruct (decide (s = "")).
    + destruct occupation as [s|]; [|done]. by destruct (decide (s = "")).
  - intros other Hne. unfold ps', update_user_profile, get_user_profile.
    destruct (ps !! user_id) as [p|] eqn:Hp.
    + by rewrite lookup_insert_ne.
    + by rewrite !lookup_insert_ne.
Qed.
